(** * Stock tracker: alert evaluation and the tracking loop

    A shallow embedding of [stock_tracker.py] (class [StockTracker]) and the
    properties of its alert-evaluation / tracking-loop core.

    Conventions of the embedding.
    - A Python float is given by a rational ([Q]).  Where the program
      computes with floats (the change and the change in percent of
      [get_stock_data]) and where it prints one with [str], the rational
      stands for the double nearest to it ([Py.fl], ties to even), every
      result is rounded to a double, and a result carries its sign bit, which
      tells [-0.0] from [0.0].  Comparisons and [round(x, 2)] are taken on
      the rational itself.  NaN and the infinities are not represented (a
      result too large for a double is not cut off), and the floats that
      come from outside (provider entries, thresholds) are not [-0.0].  An
      int of the provider is kept as an int; in the arithmetic it stands
      for the double of its value.  A division by zero raises, as in
      Python ([ZeroDivisionError]), it does not produce a value.
    - A dictionary returned by the market-data provider is a record of
      optional entries: [None] is a missing key, [Some PyNone] a key whose
      value is [None].
    - Code inside [try: ... except Exception] runs in the error monad
      [sum exn]; the handler is [catch].
    - The SQLite tables are lists of rows in rowid order.  Every statement is
      taken to succeed (the [except] branches of the methods that write,
      which only log, are not reachable in the model).  A timestamp is kept
      as its [datetime]; its text in the table has a fractional part exactly
      when the microsecond is not zero.
    - The settings of the two transports are the records the dashboard
      builds ([smtp_server], [smtp_port], [sender_email], [sender_password];
      [bot_token]); [None] and the empty dictionary are both [None] here.
    - Calls to [logging] and [print], and the sleep between two cycles, are
      left out. *)

From Stdlib Require Import ZArith QArith Qround Qabs Qpower List String Ascii Bool Lia Lqa.
From Stdlib Require Import DecimalString DecimalN Sorting.Sorted Permutation.
From ExtLib Require Import Structures.Monad Structures.MonadExc Data.Monads.EitherMonad.
Import ListNotations.
Import MonadNotation.

Local Open Scope string_scope.
Local Open Scope Z_scope.
Local Open Scope monad_scope.

(** ** The Python runtime, as far as the tracker uses it *)

Module Py.

(** Exceptions the modelled code can raise. *)
Inductive exn : Type :=
| ProviderError      (* network / parsing failure inside yfinance *)
| TypeError
| ZeroDivisionError
| OverflowError
| ValueError.

Definition M : Type -> Type := sum exn.

(** A value read from a provider dictionary: [None], a float or an int. *)
Inductive value : Type :=
| PyNone
| PyNum (q : Q)
| PyInt (z : Z).

(** The number a value stands for. *)
Definition number (v : value) : option Q :=
  match v with
  | PyNone => None
  | PyNum q => Some q
  | PyInt z => Some (inject_Z z)
  end.

(** [dict.get(key)] and [dict.get(key, default)] on an optional entry. *)
Definition get (entry : option value) : value :=
  match entry with Some v => v | None => PyNone end.

Definition get_default (entry : option value) (default : value) : value :=
  match entry with Some v => v | None => default end.

(** Truth value of a number or [None]: [None], [0] and [0.0] are false. *)
Definition truthy (v : value) : bool :=
  match number v with
  | None => false
  | Some q => negb (Qeq_bool q 0)
  end.

(** [a or b] *)
Definition or_ (a b : value) : value := if truthy a then a else b.

(** Rounding to the nearest integer, ties to even. *)
Definition round_half_even (x : Q) : Z :=
  let f := Qfloor x in
  match Qcompare (x - inject_Z f) (1 # 2) with
  | Lt => f
  | Gt => f + 1
  | Eq => if Z.even f then f else f + 1
  end.

(** [round(x, 2)] *)
Definition round2 (x : Q) : Q := round_half_even (x * 100) # 100.

(** *** Double-precision arithmetic *)

Definition negative (x : Q) : bool := negb (Qle_bool 0 x).

(** The binade of [x <> 0]: the [e] with [2^e <= |x| < 2^(e+1)]. *)
Definition binade (x : Q) : Z :=
  let e := Z.log2 (Z.abs (Qnum x)) - Z.log2 (Zpos (Qden x)) in
  if Qle_bool (2 ^ e) (Qabs x) then e else e - 1.

(** The double nearest to [x], ties to even: 53 significant bits, on the
    grid of the subnormal numbers below [2^-1022]. *)
Definition fl (x : Q) : Q :=
  if Qeq_bool x 0 then 0%Q
  else
    let ulp := (2 ^ (Z.max (binade x) (-1022) - 52))%Q in
    (inject_Z (round_half_even (x / ulp)) * ulp)%Q.

(** A float computed by the program: its value, a double, and its sign
    bit. *)
Record float : Type := mkFloat {
  fval : Q;
  fsign : bool
}.

(** [a - b], [a / b] on values; a [None] operand is a [TypeError].  The
    operands are read as doubles, an int as the double of its value (the
    difference of two ints is an int, and is carried on as the double of
    the same value).  The difference of two equal numbers is [0] or [0.0];
    a quotient has the sign bits of its operands combined, also when it is
    zero. *)
Definition sub (a b : value) : M float :=
  match number a, number b with
  | Some x, Some y => let r := fl (fl x - fl y) in ret (mkFloat r (negative r))
  | _, _ => raise TypeError
  end.

Definition truediv (a : float) (b : value) : M float :=
  match number b with
  | Some y =>
      if Qeq_bool y 0 then raise ZeroDivisionError
      else ret (mkFloat (fl (fval a / fl y)) (xorb (fsign a) (negative y)))
  | None => raise TypeError
  end.

(** [a * k] for a float [a] and an int [k]. *)
Definition mul (a : float) (k : Z) : float :=
  mkFloat (fl (fval a * inject_Z k)) (xorb (fsign a) (k <? 0)).

(** [str.upper()], on ASCII letters. *)
Definition upper_ascii (c : ascii) : ascii :=
  let n := nat_of_ascii c in
  if (andb (Nat.leb 97 n) (Nat.leb n 122)) then ascii_of_nat (n - 32) else c.

Fixpoint upper (s : string) : string :=
  match s with
  | EmptyString => EmptyString
  | String c s' => String (upper_ascii c) (upper s')
  end.

(** A naive [datetime]: its calendar fields. *)
Record datetime : Type := mkDatetime {
  year : Z; month : Z; day : Z;
  hour : Z; minute : Z; second : Z; microsecond : Z
}.

Definition fields (t : datetime) : list Z :=
  [year t; month t; day t; hour t; minute t; second t; microsecond t].

(** Comparison of two datetimes (and of their ISO texts in SQLite):
    lexicographic on the fields. *)
Fixpoint lex_compare (a b : list Z) : comparison :=
  match a, b with
  | [], [] => Eq
  | [], _ :: _ => Lt
  | _ :: _, [] => Gt
  | x :: a', y :: b' =>
      match Z.compare x y with
      | Eq => lex_compare a' b'
      | c => c
      end
  end.

Definition dt_leb (s t : datetime) : bool :=
  match lex_compare (fields s) (fields t) with Gt => false | _ => true end.

(** Decimal digits of a non-negative integer. *)
Definition digits (n : Z) : string :=
  NilZero.string_of_uint (N.to_uint (Z.to_N n)).

(** Left padding with zeros up to [width] characters. *)
Fixpoint zeros (k : nat) : string :=
  match k with O => "" | S k' => String "0" (zeros k') end.

Definition zero_pad (width : nat) (s : string) : string :=
  zeros (width - String.length s) ++ s.

(** The sign bit of the float of value [x] whose zero, if it is one, is
    [-0.0] exactly when [minus_zero]. *)
Definition signbit (minus_zero : bool) (x : Q) : bool :=
  if Qeq_bool x 0 then minus_zero else negative x.

(** [format(x, '+.2f')]: sign, integer part, point, exactly two digits;
    the value is rounded to hundredths, ties to even, and the sign is that
    of the sign bit ([-0.0] and [-0.001] give [-0.00]). *)
Definition format_plus_2f (minus_zero : bool) (x : Q) : string :=
  let n := Z.abs (round_half_even (x * 100)) in
  (if signbit minus_zero x then "-" else "+")
    ++ digits (n / 100) ++ "." ++ zero_pad 2 (digits (n mod 100)).

(** [format(x, '.2f')], the dashboard's rendering of a price. *)
Definition format_2f (x : Q) : string :=
  let n := Z.abs (round_half_even (x * 100)) in
  (if Qle_bool 0 x then "" else "-")
    ++ digits (n / 100) ++ "." ++ zero_pad 2 (digits (n mod 100)).

(** The decade of [x > 0]: the [e] with [10^e <= x < 10^(e+1)], found from
    an estimate by the binary logarithm. *)
Definition decade (x : Q) : Z :=
  let e := (Z.log2 (Qnum x) - Z.log2 (Zpos (Qden x)) - 1) * 30103 / 100000 in
  let e := if Qle_bool (10 ^ e) x then e else e - 1 in
  let e := if Qle_bool (10 ^ (e + 1)) x then e + 1 else e in
  if Qle_bool (10 ^ (e + 1)) x then e + 1 else e.

(** The shortest decimal [n * 10^t] that reads back as the double [x > 0]:
    with [d] significant digits it is one of the two neighbours of [x]; the
    nearer one when both read back as [x], the even one on a tie. *)
Fixpoint shortest (fuel : nat) (d : Z) (e : Z) (x : Q) : Z * Z :=
  match fuel with
  | O => (0, 0)
  | S fuel' =>
      let t := e - d + 1 in
      let lo := Qfloor (x / 10 ^ t) in
      let hi := lo + 1 in
      let below := (inject_Z lo * 10 ^ t)%Q in
      let above := (inject_Z hi * 10 ^ t)%Q in
      match Qeq_bool (fl below) x, Qeq_bool (fl above) x with
      | true, true =>
          match Qcompare (x - below) (above - x) with
          | Lt => (lo, t)
          | Gt => (hi, t)
          | Eq => (if Z.even lo then lo else hi, t)
          end
      | true, false => (lo, t)
      | false, true => (hi, t)
      | false, false => shortest fuel' (d + 1) e x
      end
  end.

(** Trailing zeros of the digits go to the exponent. *)
Fixpoint strip_zeros (fuel : nat) (n t : Z) : Z * Z :=
  match fuel with
  | O => (n, t)
  | S fuel' =>
      if (n mod 10 =? 0) && negb (n =? 0) then strip_zeros fuel' (n / 10) (t + 1)
      else (n, t)
  end.

(** [repr] of a double [x > 0]: the digits of its shortest decimal, in
    fixed notation with at least one digit after the point when the decimal
    exponent is between -4 and 15, else in scientific notation with an
    exponent of two digits or more. *)
Definition repr_positive (x : Q) : string :=
  let '(n, t) := shortest 17 1 (decade x) x in
  let '(n, t) := strip_zeros 17 n t in
  let ds := digits n in
  let len := Z.of_nat (String.length ds) in
  let e := len - 1 + t in
  if (e <? -4) || (16 <=? e) then
    String.substring 0 1 ds
      ++ (if len =? 1 then "" else "." ++ String.substring 1 (Z.to_nat (len - 1)) ds)
      ++ "e" ++ (if e <? 0 then "-" else "+") ++ zero_pad 2 (digits (Z.abs e))
  else if 0 <=? t then ds ++ zeros (Z.to_nat t) ++ ".0"
  else if e <? 0 then "0." ++ zeros (Z.to_nat (- e - 1)) ++ ds
  else String.substring 0 (Z.to_nat (e + 1)) ds ++ "."
         ++ String.substring (Z.to_nat (e + 1)) (Z.to_nat (len - e - 1)) ds.

(** [str(x)] of a float, which is its [repr]. *)
Definition str_float (x : Q) : string :=
  let y := fl x in
  if Qeq_bool y 0 then "0.0"
  else (if Qle_bool 0 y then "" else "-") ++ repr_positive (Qabs y).

(** [str(z)] of an int. *)
Definition str_int (z : Z) : string :=
  (if z <? 0 then "-" else "") ++ digits (Z.abs z).

(** [str(x)] of a number of value [x] that is an int or a float. *)
Definition str_number (is_int : bool) (x : Q) : string :=
  if is_int then str_int (Qfloor x) else str_float x.

(** [t.strftime('%Y-%m-%d %H:%M:%S')] *)
Definition strftime (t : datetime) : string :=
  zero_pad 4 (digits (year t)) ++ "-" ++ zero_pad 2 (digits (month t)) ++ "-"
    ++ zero_pad 2 (digits (day t)) ++ " " ++ zero_pad 2 (digits (hour t)) ++ ":"
    ++ zero_pad 2 (digits (minute t)) ++ ":" ++ zero_pad 2 (digits (second t)).

(** Truth value of an optional text ([None] and [''] are false). *)
Definition truthy_str (s : option string) : bool :=
  match s with
  | Some (String _ _) => true
  | _ => false
  end.

End Py.

(** ** Sorting rows, as [ORDER BY] does *)

Section Sorting.
Context {A : Type} (leb : A -> A -> bool).

Fixpoint insert_sorted (x : A) (l : list A) : list A :=
  match l with
  | [] => [x]
  | y :: l' => if leb x y then x :: l else y :: insert_sorted x l'
  end.

(** Stable insertion sort: rows with equal keys keep their rowid order. *)
Definition order_by (l : list A) : list A := fold_right insert_sorted [] l.
End Sorting.

(** ** The market-data provider *)

Module Provider.

(** [ticker.info]: the entries the tracker reads. *)
Record Info : Type := mkInfo {
  currentPrice : option Py.value;
  regularMarketPrice : option Py.value;
  previousClose : option Py.value;
  volume : option Py.value;
  marketCap : option Py.value;
  trailingPE : option Py.value
}.

(** [yf.Ticker(symbol)]: reading [info] may raise; so may [history], which
    otherwise gives the [Close] column of the one-minute bars of the day. *)
Record Ticker : Type := mkTicker {
  info : Py.M Info;
  history_close : Py.M (list Q)
}.

End Provider.

(** ** The tracker *)

Module StockTracker.
Import Py Provider.

(** The dictionary returned by [get_stock_data].  The floats [change] and
    [change_percent] can be a negative zero: their sign bits are kept beside
    their values (a sign bit matters only when the value is zero).  The
    price is an int when the provider gave one ([round] keeps an int). *)
Record Quote : Type := mkQuote {
  q_symbol : string;
  q_price : Q;
  q_change : Q;
  q_change_percent : Q;
  q_volume : Py.value;
  q_market_cap : Py.value;
  q_pe_ratio : Py.value;
  q_timestamp : datetime;
  q_change_signbit : bool;
  q_change_percent_signbit : bool;
  q_price_is_int : bool
}.

(** Rows of the tables [stocks], [alerts] and [watchlist]. *)
Record StockRow : Type := mkStockRow {
  s_id : Z;
  s_symbol : string;
  s_price : Q;
  s_change_percent : Q;
  s_volume : Py.value;
  s_timestamp : datetime
}.

Record AlertRow : Type := mkAlertRow {
  a_id : Z;
  a_symbol : string;
  a_alert_type : string;
  a_threshold : Q;
  a_email : option string;
  a_telegram_chat_id : option string;
  a_is_active : bool;
  a_created_at : datetime
}.

Record WatchRow : Type := mkWatchRow {
  w_id : Z;
  w_symbol : string;
  w_added_at : datetime
}.

(** The database file: three tables and their AUTOINCREMENT counters
    ([sqlite_sequence]). *)
Record DB : Type := mkDB {
  stocks : list StockRow;
  stocks_seq : Z;
  alerts : list AlertRow;
  alerts_seq : Z;
  watchlist : list WatchRow;
  watchlist_seq : Z
}.

(** [init_database] on a fresh file. *)
Definition init_database : DB := mkDB [] 0 [] 0 [] 0.

(** Keyword arguments of [send_email_alert] and the Telegram settings, as
    the dashboard builds them. *)
Record EmailConfig : Type := mkEmailConfig {
  smtp_server : string;
  smtp_port : Z;
  sender_email : string;
  sender_password : string
}.

Record TelegramConfig : Type := mkTelegramConfig {
  bot_token : string
}.

(** What the tracker does to the outside world, in order. *)
Inductive event : Type :=
| SendEmail (to subject message : string) (cfg : EmailConfig) (ok : bool)
| SendTelegram (chat_id message token : string) (ok : bool)
| Deactivate (alert_id : Z).

Record World : Type := mkWorld {
  db : DB;
  trace : list event
}.

(** The environment of a run: the provider's answer and the clock for each
    fetch (by cycle and symbol), whether the transport call made after [k]
    events succeeds, and the value of [tracking_active] read at the top of
    each iteration. *)
Record Env : Type := mkEnv {
  yf_Ticker : nat -> string -> Ticker;
  datetime_now : nat -> string -> datetime;
  transport_ok : nat -> bool;
  tracking_active : nat -> bool
}.

(** *** Watchlist *)

Definition in_watchlist (symbol : string) (d : DB) : bool :=
  existsb (fun r => w_symbol r =? symbol)%string (watchlist d).

(** [INSERT OR IGNORE INTO watchlist (symbol) VALUES (upper(symbol))] *)
Definition add_to_watchlist (symbol : string) (now : datetime) (d : DB) : DB :=
  if in_watchlist (upper symbol) d then d
  else mkDB (stocks d) (stocks_seq d) (alerts d) (alerts_seq d)
            (watchlist d ++ [mkWatchRow (watchlist_seq d + 1) (upper symbol) now])
            (watchlist_seq d + 1).

(** [DELETE FROM watchlist WHERE symbol = upper(symbol)] *)
Definition remove_from_watchlist (symbol : string) (d : DB) : DB :=
  mkDB (stocks d) (stocks_seq d) (alerts d) (alerts_seq d)
       (filter (fun r => negb (w_symbol r =? upper symbol)%string) (watchlist d))
       (watchlist_seq d).

(** [SELECT symbol FROM watchlist ORDER BY added_at] *)
Definition get_watchlist (d : DB) : list string :=
  map w_symbol (order_by (fun r s => dt_leb (w_added_at r) (w_added_at s)) (watchlist d)).

(** *** Fetching a quote *)

(** Price resolution inside [get_stock_data]: [None] stands for the early
    [return None]. *)
Definition resolve_price (ticker : Ticker) (inf : Info) : M (option Q) :=
  let current_price := or_ (get (currentPrice inf)) (get (regularMarketPrice inf)) in
  if negb (truthy current_price) then
    (* Fallback: get latest price from history *)
    hist <- history_close ticker ;;
    match hist with
    | [] => ret None
    | _ :: _ => ret (Some (last hist 0%Q))
    end
  else
    match number current_price with
    | Some p => ret (Some p)
    | None => raise TypeError
    end.

(** Whether the price resolved is an int: the live price is one (the closes
    of the history are floats). *)
Definition price_is_int (inf : Info) : bool :=
  match or_ (get (currentPrice inf)) (get (regularMarketPrice inf)) with
  | PyInt z => negb (z =? 0)
  | _ => false
  end.

(** The body of the [try] block of [get_stock_data]. *)
Definition get_stock_data_try (ticker : Ticker) (now : datetime) (symbol : string)
  : M (option Quote) :=
  inf <- info ticker ;;
  resolved <- resolve_price ticker inf ;;
  match resolved with
  | None => ret None
  | Some current_price =>
      let previous_close := get_default (previousClose inf) (PyNum current_price) in
      change <- sub (PyNum current_price) previous_close ;;
      change_percent <-
        (if truthy previous_close
         then (r <- truediv change previous_close ;; ret (mul r 100))
         else ret (mkFloat 0 false)) ;;
      ret (Some (mkQuote (upper symbol)
                         (round2 current_price)
                         (round2 (fval change))
                         (round2 (fval change_percent))
                         (get_default (volume inf) (PyInt 0))
                         (get (marketCap inf))
                         (get (trailingPE inf))
                         now
                         (fsign change)
                         (fsign change_percent)
                         (price_is_int inf)))
  end.

(** [get_stock_data] with its handler: any exception is logged and turned
    into [None]. *)
Definition get_stock_data_exc (ticker : Ticker) (now : datetime) (symbol : string)
  : M (option Quote) :=
  catch (get_stock_data_try ticker now symbol) (fun _ => ret None).

Definition get_stock_data (ticker : Ticker) (now : datetime) (symbol : string)
  : option Quote :=
  match get_stock_data_exc ticker now symbol with
  | inr r => r
  | inl _ => None
  end.

(** *** Samples *)

(** [INSERT INTO stocks (symbol, price, change_percent, volume, timestamp)] *)
Definition store_stock_data (stock_data : Quote) (d : DB) : DB :=
  mkDB (stocks d ++ [mkStockRow (stocks_seq d + 1)
                                (q_symbol stock_data)
                                (q_price stock_data)
                                (q_change_percent stock_data)
                                (q_volume stock_data)
                                (q_timestamp stock_data)])
       (stocks_seq d + 1)
       (alerts d) (alerts_seq d) (watchlist d) (watchlist_seq d).

(** Days of the civil calendar: [date.toordinal] up to a constant, and its
    inverse. *)
Definition days_from_civil (y m d : Z) : Z :=
  let y' := if m <=? 2 then y - 1 else y in
  let era := y' / 400 in
  let yoe := y' - era * 400 in
  let doy := (153 * (if m >? 2 then m - 3 else m + 9) + 2) / 5 + d - 1 in
  let doe := yoe * 365 + yoe / 4 - yoe / 100 + doy in
  era * 146097 + doe.

Definition civil_from_days (z : Z) : Z * Z * Z :=
  let era := z / 146097 in
  let doe := z - era * 146097 in
  let yoe := (doe - doe / 1460 + doe / 36524 - doe / 146096) / 365 in
  let doy := doe - (365 * yoe + yoe / 4 - yoe / 100) in
  let mp := (5 * doy + 2) / 153 in
  let d := doy - (153 * mp + 2) / 5 + 1 in
  let m := if mp <? 10 then mp + 3 else mp - 9 in
  (yoe + era * 400 + (if m <=? 2 then 1 else 0), m, d).

(** [t - timedelta(days=days)]: a [timedelta] holds at most 999999999 days,
    and the year of a [datetime] lies between 1 and 9999; outside of that
    Python raises [OverflowError]. *)
Definition minus_days (t : datetime) (days : Z) : M datetime :=
  if 999999999 <? Z.abs days then raise OverflowError
  else
    let '(y, m, d) := civil_from_days (days_from_civil (year t) (month t) (day t) - days) in
    if (1 <=? y) && (y <=? 9999)
    then ret (mkDatetime y m d (hour t) (minute t) (second t) (microsecond t))
    else raise OverflowError.

(** [SELECT * FROM stocks WHERE symbol = ? AND timestamp >= ? ORDER BY timestamp] *)
Definition select_stocks (symbol : string) (cutoff_date : datetime) (d : DB)
  : list StockRow :=
  order_by (fun r s => dt_leb (s_timestamp r) (s_timestamp s))
    (filter (fun r => (s_symbol r =? symbol)%string && dt_leb cutoff_date (s_timestamp r))
            (stocks d)).

(** The text of a timestamp in the table, [str(datetime)], ends in a
    fractional part exactly when the microsecond is not zero. *)
Definition has_fraction (t : datetime) : bool := negb (microsecond t =? 0).

(** [pd.to_datetime] on a column of timestamp texts (pandas 2): the format
    is that of the first text, and a text in the other format is a
    [ValueError]. *)
Definition to_datetime (column : list datetime) : M (list datetime) :=
  match column with
  | [] => ret []
  | t :: _ =>
      if forallb (fun u => Bool.eqb (has_fraction u) (has_fraction t)) column
      then ret column
      else raise ValueError
  end.

(** The body of the [try] block of [get_historical_data]; the parsed
    timestamps are the ones the rows carry. *)
Definition get_historical_data_try (symbol : string) (days : Z) (now : datetime) (d : DB)
  : M (list StockRow) :=
  cutoff_date <- minus_days now days ;;
  let df := select_stocks (upper symbol) cutoff_date d in
  match df with
  | [] => ret df
  | _ :: _ => _ <- to_datetime (map s_timestamp df) ;; ret df
  end.

(** [get_historical_data] with its handler: any exception is logged and an
    empty frame is returned. *)
Definition get_historical_data (symbol : string) (days : Z) (now : datetime) (d : DB)
  : list StockRow :=
  match catch (get_historical_data_try symbol days now d) (fun _ => ret []) with
  | inr df => df
  | inl _ => []
  end.

(** *** Alert rules *)

(** [INSERT INTO alerts (symbol, alert_type, threshold, email, telegram_chat_id)];
    [is_active] takes its default 1. *)
Definition create_alert (symbol alert_type : string) (threshold : Q)
    (email telegram_chat_id : option string) (now : datetime) (d : DB) : DB :=
  mkDB (stocks d) (stocks_seq d)
       (alerts d ++ [mkAlertRow (alerts_seq d + 1) (upper symbol) alert_type threshold
                                email telegram_chat_id true now])
       (alerts_seq d + 1)
       (watchlist d) (watchlist_seq d).

(** [SELECT * FROM alerts WHERE is_active = 1] *)
Definition get_active_alerts (d : DB) : list AlertRow :=
  filter a_is_active (alerts d).

(** [UPDATE alerts SET is_active = 0 WHERE id = ?] *)
Definition update_inactive (alert_id : Z) (d : DB) : DB :=
  mkDB (stocks d) (stocks_seq d)
       (map (fun a => if a_id a =? alert_id
                      then mkAlertRow (a_id a) (a_symbol a) (a_alert_type a) (a_threshold a)
                                      (a_email a) (a_telegram_chat_id a) false (a_created_at a)
                      else a)
            (alerts d))
       (alerts_seq d)
       (watchlist d) (watchlist_seq d).

Definition deactivate_alert (alert_id : Z) (w : World) : World :=
  mkWorld (update_inactive alert_id (db w)) (trace w ++ [Deactivate alert_id]).

(** *** Notification transports *)

(** Both methods catch every exception of the transport and return
    [False]; the outcome of the call comes from the environment. *)
Definition send_email_alert (env : Env) (email subject message : string)
    (cfg : EmailConfig) (w : World) : bool * World :=
  let ok := transport_ok env (List.length (trace w)) in
  (ok, mkWorld (db w) (trace w ++ [SendEmail email subject message cfg ok])).

Definition send_telegram_alert (env : Env) (chat_id message token : string)
    (w : World) : bool * World :=
  let ok := transport_ok env (List.length (trace w)) in
  (ok, mkWorld (db w) (trace w ++ [SendTelegram chat_id message token ok])).

(** *** Alert evaluation *)

(** The [if]/[elif] chain of [check_alerts] that sets [triggered]. *)
Definition triggered (alert : AlertRow) (stock_data : Quote) : bool :=
  let current_price := q_price stock_data in
  if (a_alert_type alert =? "above")%string
     && Qle_bool (a_threshold alert) current_price then true
  else if (a_alert_type alert =? "below")%string
     && Qle_bool current_price (a_threshold alert) then true
  else if (a_alert_type alert =? "change_above")%string
     && Qle_bool (a_threshold alert) (q_change_percent stock_data) then true
  else if (a_alert_type alert =? "change_below")%string
     && Qle_bool (q_change_percent stock_data) (a_threshold alert) then true
  else false.

Definition nl : string := String (ascii_of_nat 10) EmptyString.

Definition banner : string := "ðŸš¨ Stock Alert Triggered! ðŸš¨".

(** The f-string of [check_alerts], after [strip()]. *)
Definition alert_message (alert : AlertRow) (stock_data : Quote) : string :=
  banner ++ nl ++ nl
    ++ "Symbol: " ++ q_symbol stock_data ++ nl
    ++ "Current Price: $"
    ++ str_number (q_price_is_int stock_data) (q_price stock_data) ++ nl
    ++ "Change: "
    ++ format_plus_2f (q_change_signbit stock_data) (q_change stock_data)
    ++ " ("
    ++ format_plus_2f (q_change_percent_signbit stock_data) (q_change_percent stock_data)
    ++ "%)" ++ nl
    ++ "Alert Type: " ++ a_alert_type alert ++ nl
    ++ "Threshold: " ++ str_float (a_threshold alert) ++ nl
    ++ "Time: " ++ strftime (q_timestamp stock_data).

(** The notification part of the loop body, for a triggered alert. *)
Definition notify (env : Env) (alert : AlertRow) (stock_data : Quote)
    (email_config : option EmailConfig) (telegram_config : option TelegramConfig)
    (w : World) : World :=
  let message := alert_message alert stock_data in
  let w1 :=
    match a_email alert, email_config with
    | Some email, Some cfg =>
        if truthy_str (a_email alert)
        then snd (send_email_alert env email ("Stock Alert: " ++ q_symbol stock_data)
                                   message cfg w)
        else w
    | _, _ => w
    end in
  match a_telegram_chat_id alert, telegram_config with
  | Some chat_id, Some cfg =>
      if truthy_str (a_telegram_chat_id alert)
      then snd (send_telegram_alert env chat_id message (bot_token cfg) w1)
      else w1
  | _, _ => w1
  end.

(** One iteration of [for alert in alerts]. *)
Definition check_alert (env : Env) (stock_data : Quote)
    (email_config : option EmailConfig) (telegram_config : option TelegramConfig)
    (w : World) (alert : AlertRow) : World :=
  if negb (a_symbol alert =? q_symbol stock_data)%string then w
  else if triggered alert stock_data then
    (* Deactivate the alert to prevent spam *)
    deactivate_alert (a_id alert)
      (notify env alert stock_data email_config telegram_config w)
  else w.

Definition check_alerts (env : Env) (stock_data : Quote)
    (email_config : option EmailConfig) (telegram_config : option TelegramConfig)
    (w : World) : World :=
  let alerts := get_active_alerts (db w) in
  fold_left (check_alert env stock_data email_config telegram_config) alerts w.

(** *** The tracking loop *)

(** The body of [for symbol in watchlist] in [track]. *)
Definition track_symbol (env : Env) (cycle_no : nat)
    (email_config : option EmailConfig) (telegram_config : option TelegramConfig)
    (w : World) (symbol : string) : World :=
  match get_stock_data (yf_Ticker env cycle_no symbol)
                       (datetime_now env cycle_no symbol) symbol with
  | Some stock_data =>
      check_alerts env stock_data email_config telegram_config
        (mkWorld (store_stock_data stock_data (db w)) (trace w))
  | None => w
  end.

(** One iteration of [while self.tracking_active], up to the sleep. *)
Definition cycle (env : Env) (cycle_no : nat)
    (email_config : option EmailConfig) (telegram_config : option TelegramConfig)
    (w : World) : World :=
  let watchlist := get_watchlist (db w) in
  fold_left (track_symbol env cycle_no email_config telegram_config) watchlist w.

(** How a bounded observation of the loop ends: the flag was read false at
    the top of iteration [cycles], or the loop is still running. *)
Inductive outcome : Type :=
| Stopped (cycles : nat) (w : World)
| StillRunning (cycles : nat) (w : World).

(** [track], observed for [fuel] iterations from iteration [cycle_no]. *)
Fixpoint track (env : Env)
    (email_config : option EmailConfig) (telegram_config : option TelegramConfig)
    (fuel : nat) (cycle_no : nat) (w : World) : outcome :=
  match fuel with
  | O => StillRunning cycle_no w
  | S fuel' =>
      if tracking_active env cycle_no
      then track env email_config telegram_config fuel' (S cycle_no)
                 (cycle env cycle_no email_config telegram_config w)
      else Stopped cycle_no w
  end.

(** *** Commands on the tracker, for statements about every run *)

Inductive command : Type :=
| AddToWatchlist (symbol : string) (now : datetime)
| RemoveFromWatchlist (symbol : string)
| StoreStockData (stock_data : Quote)
| CreateAlert (symbol alert_type : string) (threshold : Q)
              (email telegram_chat_id : option string) (now : datetime)
| DeactivateAlert (alert_id : Z)
| CheckAlerts (stock_data : Quote)
              (email_config : option EmailConfig) (telegram_config : option TelegramConfig)
| Cycle (cycle_no : nat)
        (email_config : option EmailConfig) (telegram_config : option TelegramConfig).

Definition run_command (env : Env) (w : World) (c : command) : World :=
  match c with
  | AddToWatchlist symbol now => mkWorld (add_to_watchlist symbol now (db w)) (trace w)
  | RemoveFromWatchlist symbol => mkWorld (remove_from_watchlist symbol (db w)) (trace w)
  | StoreStockData stock_data => mkWorld (store_stock_data stock_data (db w)) (trace w)
  | CreateAlert symbol alert_type threshold email chat now =>
      mkWorld (create_alert symbol alert_type threshold email chat now (db w)) (trace w)
  | DeactivateAlert alert_id => deactivate_alert alert_id w
  | CheckAlerts stock_data ec tc => check_alerts env stock_data ec tc w
  | Cycle cycle_no ec tc => cycle env cycle_no ec tc w
  end.

Definition run (env : Env) (cs : list command) (w : World) : World :=
  fold_left (run_command env) cs w.

Definition initial : World := mkWorld init_database [].

Definition active_ids (w : World) : list Z := map a_id (get_active_alerts (db w)).

Definition alert_ids (w : World) : list Z := map a_id (alerts (db w)).

End StockTracker.

(** ** Vocabulary of the statements *)

Module Spec.
Import Py Provider StockTracker.

(** A provider entry that carries a price: present, not [None], not zero. *)
Definition usable (entry : option value) : option Q :=
  match entry with
  | Some v =>
      match number v with
      | Some q => if Qeq_bool q 0 then None else Some q
      | None => None
      end
  | None => None
  end.

(** The live price: [currentPrice], else [regularMarketPrice]. *)
Definition live_price (inf : Info) : option Q :=
  match usable (currentPrice inf) with
  | Some p => Some p
  | None => usable (regularMarketPrice inf)
  end.

(** The change and the change in percent before [round(x, 2)], for price
    [p] and previous close [pc]: each operation gives a double. *)
Definition derived_change (p pc : Q) : Q := fl (fl p - fl pc).

Definition derived_change_percent (p pc : Q) : Q :=
  if Qeq_bool pc 0 then 0%Q else fl (fl (derived_change p pc / fl pc) * 100).

(** Their sign bits. *)
Definition change_signbit (p pc : Q) : bool := negative (derived_change p pc).

Definition change_percent_signbit (p pc : Q) : bool :=
  if Qeq_bool pc 0 then false else xorb (change_signbit p pc) (negative pc).

(** The quote built from a resolved price [p] and a previous close [pc]. *)
Definition quote_of (symbol : string) (p pc : Q) (inf : Info) (now : datetime) : Quote :=
  mkQuote (upper symbol) (round2 p) (round2 (derived_change p pc))
          (round2 (derived_change_percent p pc))
          (get_default (volume inf) (PyInt 0)) (get (marketCap inf)) (get (trailingPE inf))
          now (change_signbit p pc) (change_percent_signbit p pc) (price_is_int inf).

(** The rule fires on the quote: same symbol and condition met. *)
Definition fires (stock_data : Quote) (alert : AlertRow) : bool :=
  (a_symbol alert =? q_symbol stock_data)%string && triggered alert stock_data.

(** A transport is configured for a rule when the rule has a non-empty
    destination and the settings of the transport were given. *)
Definition email_events (env : Env) (alert : AlertRow) (stock_data : Quote)
    (email_config : option EmailConfig) (k : nat) : list event :=
  match a_email alert, email_config with
  | Some (String c email), Some cfg =>
      [SendEmail (String c email) ("Stock Alert: " ++ q_symbol stock_data)
                 (alert_message alert stock_data) cfg (transport_ok env k)]
  | _, _ => []
  end.

Definition telegram_events (env : Env) (alert : AlertRow) (stock_data : Quote)
    (telegram_config : option TelegramConfig) (k : nat) : list event :=
  match a_telegram_chat_id alert, telegram_config with
  | Some (String c chat), Some cfg =>
      [SendTelegram (String c chat) (alert_message alert stock_data) (bot_token cfg)
                    (transport_ok env k)]
  | _, _ => []
  end.

(** The attempts made for a fired rule when [k] events came before. *)
Definition notify_events (env : Env) (alert : AlertRow) (stock_data : Quote)
    (email_config : option EmailConfig) (telegram_config : option TelegramConfig)
    (k : nat) : list event :=
  let es := email_events env alert stock_data email_config k in
  es ++ telegram_events env alert stock_data telegram_config (k + List.length es).

(** Rows of the rule [alert_id] that are still active. *)
Definition is_active_id (alert_id : Z) (d : DB) : bool :=
  existsb (fun a => (a_id a =? alert_id) && a_is_active a) (alerts d).

(** Identifiers in use never exceed the AUTOINCREMENT counter. *)
Definition ids_bounded (d : DB) : Prop :=
  Forall (fun a => a_id a <= alerts_seq d) (alerts d).

(** [s] occurs in [m]. *)
Definition contains (s m : string) : Prop :=
  exists pre post, m = (pre ++ s ++ post)%string.

Fixpoint is_infix (s m : string) : bool :=
  String.prefix s m ||
    match m with
    | EmptyString => false
    | String _ m' => is_infix s m'
    end.

Definition is_digit (c : ascii) : bool :=
  let n := nat_of_ascii c in Nat.leb 48 n && Nat.leb n 57.

(** A text that ends in a point followed by exactly two digits. *)
Definition two_decimals (s : string) : Prop :=
  exists body d1 d2,
    s = (body ++ "." ++ String d1 (String d2 EmptyString))%string
    /\ is_digit d1 = true /\ is_digit d2 = true.

(** A text without a line break. *)
Fixpoint one_line (s : string) : bool :=
  match s with
  | EmptyString => true
  | String c s' => negb (Ascii.eqb c (ascii_of_nat 10)) && one_line s'
  end.

(** The lines of a text, split at its line breaks. *)
Fixpoint lines (m : string) : list string :=
  match m with
  | EmptyString => [EmptyString]
  | String c m' =>
      if Ascii.eqb c (ascii_of_nat 10) then EmptyString :: lines m'
      else
        match lines m' with
        | [] => [String c EmptyString]
        | l :: ls => String c l :: ls
        end
  end.

(** The number denoted by a text made of a sign, digits, a point and two
    digits. *)
Definition read_2f (s : string) : option Q :=
  match s with
  | EmptyString => None
  | String sign body =>
      let k := String.length body in
      match NilZero.uint_of_string (substring 0 (k - 3)%nat body),
            NilZero.uint_of_string (substring (k - 2)%nat 2 body) with
      | Some i, Some f =>
          if (substring (k - 3)%nat 1 body =? ".")%string then
            let n := 100 * Z.of_N (N.of_uint i) + Z.of_N (N.of_uint f) in
            if Ascii.eqb sign "-" then Some ((- n) # 100)
            else if Ascii.eqb sign "+" then Some (n # 100)
            else None
          else None
      | _, _ => None
      end
  end.

(** Two digits after padding that read back as the number padded. *)
Definition pad_reads (k : Z) : bool :=
  match NilZero.uint_of_string (zero_pad 2 (digits k)) with
  | Some f => Z.of_N (N.of_uint f) =? k
  | None => false
  end.

(** The timestamp texts of a column are all in one format. *)
Definition uniform (column : list datetime) : bool :=
  match column with
  | [] => true
  | t :: _ => forallb (fun u => Bool.eqb (has_fraction u) (has_fraction t)) column
  end.

(** A read of the sample store, as a command on the world. *)
Definition query (symbol : string) (days : Z) (now : datetime) (w : World)
  : list StockRow * World :=
  (get_historical_data symbol days now (db w), w).

Definition dt_le (s t : datetime) : Prop := dt_leb s t = true.

(** No new rule, no rule made active. *)
Definition shrinks (w w' : World) : Prop :=
  alert_ids w' = alert_ids w /\ alerts_seq (db w') = alerts_seq (db w) /\
  forall i, is_active_id i (db w') = true -> is_active_id i (db w) = true.

(** The rule [i] exists and is inactive, in a well-numbered table. *)
Definition retired (i : Z) (w : World) : Prop :=
  ids_bounded (db w) /\ In i (alert_ids w) /\ is_active_id i (db w) = false.

(** Two digits, after padding. *)
Definition pad_ok (k : Z) : bool :=
  match zero_pad 2 (digits k) with
  | String d1 (String d2 EmptyString) => is_digit d1 && is_digit d2
  | _ => false
  end.

End Spec.

(** ** Sample data *)

Module Samples.
Import Py Provider StockTracker.

Definition t0 : datetime := mkDatetime 2024 3 1 9 30 0 0.
Definition t1 : datetime := mkDatetime 2024 3 1 9 35 0 0.
Definition t2 : datetime := mkDatetime 2024 3 1 9 40 0 0.

Definition no_info : Info := mkInfo None None None None None None.

(** A provider answer with a live price and, possibly, a previous close. *)
Definition live (p : Q) (pc : option value) : Ticker :=
  mkTicker (inr (mkInfo (Some (PyNum p)) None pc None None None)) (inr []).

(** A provider answer without a live price, with intraday closes. *)
Definition intraday (closes : list Q) : Ticker :=
  mkTicker (inr no_info) (inr closes).

(** A provider that fails. *)
Definition down : Ticker := mkTicker (inl ProviderError) (inl ProviderError).

Definition email_cfg : EmailConfig :=
  mkEmailConfig "smtp.gmail.com" 587 "me@example.com" "secret".
Definition telegram_cfg : TelegramConfig := mkTelegramConfig "TOKEN".

(** AAPL quoted at 199.99, 200.00 and 205.00 in cycles 0, 1, 2; ZZZZ is
    never available; every transport call fails; the loop is stopped
    before iteration 3. *)
Definition env0 : Env :=
  mkEnv (fun n symbol =>
           if (symbol =? "AAPL")%string then
             match n with
             | O => live (19999 # 100) (Some (PyNum 198))
             | S O => live 200 (Some (PyNum 198))
             | _ => live 205 (Some (PyNum 198))
             end
           else down)
        (fun n _ => match n with O => t0 | S O => t1 | _ => t2 end)
        (fun _ => false)
        (fun n => Nat.ltb n 3).

(** Watchlist ZZZZ, AAPL and one rule: AAPL above 200.00, with both
    destinations. *)
Definition w0 : World :=
  run env0 [AddToWatchlist "zzzz" t0; AddToWatchlist "aapl" t0;
            CreateAlert "aapl" "above" 200 (Some "user@example.com") (Some "123456789") t0]
      initial.

Definition quote200 : Quote :=
  mkQuote "AAPL" 200 (3 # 2) (76 # 100) (PyNum 1000) PyNone PyNone t1 false false false.

Definition rule200 : AlertRow :=
  mkAlertRow 1 "AAPL" "above" 200 (Some "user@example.com") (Some "123456789") true t0.

End Samples.

(** ** Charts: the data the figures are built from *)

Module Charts.
Import Py Provider StockTracker.

(** The two traces of [create_price_chart]: price over time (a line) and
    volume over time (bars).  Titles, colours and layout are left out. *)
Record PriceChart : Type := mkPriceChart {
  price_x : list datetime;
  price_y : list Q;
  volume_x : list datetime;
  volume_y : list Py.value
}.

Definition create_price_chart (symbol : string) (days : Z) (now : datetime) (d : DB)
  : option PriceChart :=
  let df := get_historical_data symbol days now d in
  match df with
  | [] => None
  | _ :: _ =>
      Some (mkPriceChart (map s_timestamp df) (map s_price df)
                         (map s_timestamp df) (map s_volume df))
  end.

(** The loop that fills [portfolio_data] in [create_portfolio_dashboard]
    (and in the dashboard's overview): the quotes of the watchlist symbols
    whose fetch succeeds, in watchlist order. *)
Fixpoint portfolio_data (env : Env) (n : nat) (watchlist : list string) : list Quote :=
  match watchlist with
  | [] => []
  | symbol :: rest =>
      match get_stock_data (yf_Ticker env n symbol) (datetime_now env n symbol) symbol with
      | Some stock_data => stock_data :: portfolio_data env n rest
      | None => portfolio_data env n rest
      end
  end.

(** The four traces of [create_portfolio_dashboard]. *)
Record PortfolioFigure : Type := mkPortfolioFigure {
  current_prices : list (string * Q);
  percent_changes : list (string * Q);
  change_colors : list string;
  market_cap_pie : option (list (string * Q));
  volume_bars : list (string * Py.value)
}.

(** [df[df['market_cap'].notna()]] with its two columns. *)
Fixpoint market_cap_data (df : list Quote) : list (string * Q) :=
  match df with
  | [] => []
  | q :: rest =>
      match number (q_market_cap q) with
      | Some m => (q_symbol q, m) :: market_cap_data rest
      | None => market_cap_data rest
      end
  end.

Definition create_portfolio_dashboard (env : Env) (n : nat) (d : DB)
  : option PortfolioFigure :=
  let watchlist := get_watchlist d in
  match watchlist with
  | [] => None
  | _ :: _ =>
      let df := portfolio_data env n watchlist in
      match df with
      | [] => None
      | _ :: _ =>
          let colors :=
            map (fun q => if Qle_bool 0 (q_change_percent q) then "green" else "red") df in
          let market_cap := market_cap_data df in
          Some (mkPortfolioFigure
                  (map (fun q => (q_symbol q, q_price q)) df)
                  (map (fun q => (q_symbol q, q_change_percent q)) df)
                  colors
                  (match market_cap with [] => None | _ :: _ => Some market_cap end)
                  (map (fun q => (q_symbol q, q_volume q)) df))
      end
  end.

End Charts.

(** ** The dashboard's callers of the tracker *)

Module Dashboard.
Import Py Provider StockTracker.

(** [x if x else None] on the text of an input field. *)
Definition nonempty (s : string) : option string :=
  match s with
  | EmptyString => None
  | String _ _ => Some s
  end.

(** The "Create Alert" button of [alerts_tab]: the rule is created only for
    a threshold above zero; empty contact fields become [None].  The result
    tells whether the success message is shown. *)
Definition create_alert_button (alert_symbol alert_type : string) (threshold : Q)
    (alert_email telegram_chat : string) (now : datetime) (d : DB) : bool * DB :=
  if Qle_bool threshold 0 then (false, d)
  else (true, create_alert alert_symbol alert_type threshold
                           (nonempty alert_email) (nonempty telegram_chat) now d).

(** The "Add Stock" button of [watchlist_tab]. *)
Definition add_stock_button (new_symbol : string) (now : datetime) (d : DB) : bool * DB :=
  match new_symbol with
  | EmptyString => (false, d)
  | String _ _ => (true, add_to_watchlist (upper new_symbol) now d)
  end.

End Dashboard.

(** ** Observations on traces and outcomes *)

Module Observe.
Import Py Provider StockTracker.

Definition is_deactivate (i : Z) (e : event) : bool :=
  match e with
  | Deactivate j => j =? i
  | _ => false
  end.

Definition is_send_email (e : event) : bool :=
  match e with SendEmail _ _ _ _ _ => true | _ => false end.

Definition is_send_telegram (e : event) : bool :=
  match e with SendTelegram _ _ _ _ => true | _ => false end.

Definition is_any_deactivate (e : event) : bool :=
  match e with Deactivate _ => true | _ => false end.

(** How often the rule [i] was deactivated, and how many calls of each kind
    a trace holds. *)
Definition deactivations (i : Z) (tr : list event) : nat :=
  List.length (filter (is_deactivate i) tr).

Definition count (p : event -> bool) (tr : list event) : nat :=
  List.length (filter p tr).

(** Deactivations of the rule [i] so far, plus one while it is active. *)
Definition deactivation_balance (i : Z) (w : World) : nat :=
  deactivations i (trace w) + (if Spec.is_active_id i (db w) then 1 else 0)%nat.

(** Between two worlds, no more sends than deactivations. *)
Definition sends_covered (w w' : World) : Prop :=
  (count is_send_email (trace w') + count is_any_deactivate (trace w)
   <= count is_send_email (trace w) + count is_any_deactivate (trace w'))%nat
  /\ (count is_send_telegram (trace w') + count is_any_deactivate (trace w)
      <= count is_send_telegram (trace w) + count is_any_deactivate (trace w'))%nat.

(** Everything of the database but the [alerts] table. *)
Definition rest_of_db (d : DB) : list StockRow * Z * Z * list WatchRow * Z :=
  (stocks d, stocks_seq d, alerts_seq d, watchlist d, watchlist_seq d).

(** The watchlist holds each symbol once, in upper case. *)
Definition watchlist_ok (d : DB) : Prop :=
  NoDup (map w_symbol (watchlist d))
  /\ Forall (fun t => upper t = t) (map w_symbol (watchlist d)).

(** A rule without its [is_active] flag. *)
Definition rule_definition (a : AlertRow)
  : Z * string * string * Q * option string * option string * datetime :=
  (a_id a, a_symbol a, a_alert_type a, a_threshold a, a_email a,
   a_telegram_chat_id a, a_created_at a).

(** A sample without its row id. *)
Definition sample_of_row (r : StockRow) : string * Q * Q * Py.value * datetime :=
  (s_symbol r, s_price r, s_change_percent r, s_volume r, s_timestamp r).

Definition sample_of_quote (q : Quote) : string * Q * Q * Py.value * datetime :=
  (q_symbol q, q_price q, q_change_percent q, q_volume q, q_timestamp q).

(** The world and the number of completed cycles at the end of an
    observation of the loop. *)
Definition outcome_world (o : outcome) : World :=
  match o with Stopped _ w => w | StillRunning _ w => w end.

Definition outcome_cycles (o : outcome) : nat :=
  match o with Stopped k _ => k | StillRunning k _ => k end.

Definition outcome_stopped (o : outcome) : bool :=
  match o with Stopped _ _ => true | StillRunning _ _ => false end.

(** Two environments that differ at most in the outcomes of the transport
    calls. *)
Definition same_market (env env' : Env) : Prop :=
  (forall n symbol, yf_Ticker env n symbol = yf_Ticker env' n symbol)
  /\ (forall n symbol, datetime_now env n symbol = datetime_now env' n symbol)
  /\ (forall n, tracking_active env n = tracking_active env' n).

End Observe.

(** * Properties *)

Import Py Provider StockTracker Spec.
Local Open Scope list_scope.

(** ** Rounding *)

Module PyFacts.

Lemma round_half_even_comp (x y : Q) :
  (x == y)%Q -> round_half_even x = round_half_even y.
Proof.
  intros E. unfold round_half_even.
  rewrite (Qfloor_comp _ _ E).
  assert (H : (x - inject_Z (Qfloor y) == y - inject_Z (Qfloor y))%Q) by (rewrite E; reflexivity).
  rewrite (Qcompare_comp _ _ H _ _ (Qeq_refl (1 # 2))).
  reflexivity.
Qed.

Lemma round2_comp (x y : Q) : (x == y)%Q -> round2 x = round2 y.
Proof.
  intros E. unfold round2. f_equal. apply round_half_even_comp. rewrite E. reflexivity.
Qed.

Lemma round_half_even_near (x : Q) :
  (Qabs (inject_Z (round_half_even x) - x) <= 1 # 2)%Q.
Proof.
  unfold round_half_even.
  pose proof (Qfloor_le x) as Hlo. pose proof (Qlt_floor x) as Hhi.
  rewrite inject_Z_plus in Hhi. change (inject_Z 1) with 1%Q in Hhi.
  destruct (Qcompare (x - inject_Z (Qfloor x)) (1 # 2)) eqn:C.
  - apply Qeq_alt in C. destruct (Z.even (Qfloor x));
      try (rewrite inject_Z_plus; change (inject_Z 1) with 1%Q);
      apply Qabs_case; intros; lra.
  - apply Qlt_alt in C. apply Qabs_case; intros; lra.
  - apply Qgt_alt in C. rewrite inject_Z_plus. change (inject_Z 1) with 1%Q.
    apply Qabs_case; intros; lra.
Qed.

Lemma round2_hundredths (x : Q) : exists n : Z, round2 x = n # 100.
Proof. eexists. reflexivity. Qed.

Lemma Qmake_100 (n : Z) : (n # 100 == inject_Z n / 100)%Q.
Proof. unfold Qeq, Qdiv, Qmult, Qinv, inject_Z. simpl. lia. Qed.

Lemma round2_near (x : Q) : (Qabs (round2 x - x) <= 1 # 200)%Q.
Proof.
  unfold round2. pose proof (round_half_even_near (x * 100)) as H.
  rewrite Qmake_100.
  revert H. generalize (inject_Z (round_half_even (x * 100))). intros r H.
  apply Qabs_Qle_condition in H. apply Qabs_Qle_condition.
  assert (E : (r / 100 == r * (1 # 100))%Q) by (unfold Qdiv; reflexivity).
  rewrite E. destruct H. split; lra.
Qed.

Lemma fl_zero (x : Q) : (x == 0)%Q -> fl x = 0%Q.
Proof. intros E. unfold fl. apply Qeq_bool_iff in E. rewrite E. reflexivity. Qed.

End PyFacts.

Section RoundingOrder.
Local Open Scope Q_scope.

Lemma round_half_even_bounds (x : Q) :
  (Qfloor x <= round_half_even x <= Qfloor x + 1)%Z.
Proof.
  unfold round_half_even.
  destruct (Qcompare (x - inject_Z (Qfloor x)) (1 # 2));
    try destruct (Z.even (Qfloor x)); lia.
Qed.

Lemma round_half_even_mono (x y : Q) :
  x <= y -> (round_half_even x <= round_half_even y)%Z.
Proof.
  intros L. pose proof (Qfloor_resp_le x y L) as F.
  destruct (Z.eq_dec (Qfloor x) (Qfloor y)) as [E|N].
  - unfold round_half_even. rewrite <- E.
    destruct (Qcompare (x - inject_Z (Qfloor x)) (1 # 2)) eqn:Cx;
      destruct (Qcompare (y - inject_Z (Qfloor x)) (1 # 2)) eqn:Cy;
      try destruct (Z.even (Qfloor x)); try lia;
      repeat match goal with
             | H : (_ ?= _) = Eq |- _ => apply Qeq_alt in H
             | H : (_ ?= _) = Lt |- _ => apply Qlt_alt in H
             | H : (_ ?= _) = Gt |- _ => apply Qgt_alt in H
             end;
      exfalso; lra.
  - pose proof (round_half_even_bounds x). pose proof (round_half_even_bounds y). lia.
Qed.

Lemma round_half_even_Z (n : Z) : round_half_even (inject_Z n) = n.
Proof.
  unfold round_half_even. rewrite Qfloor_Z.
  assert (C : Qcompare (inject_Z n - inject_Z n) (1 # 2) = Lt).
  { apply (proj1 (Qlt_alt _ _)). lra. }
  rewrite C. reflexivity.
Qed.

Lemma round2_mono (x y : Q) : x <= y -> round2 x <= round2 y.
Proof.
  intros L. unfold round2.
  assert (M : (round_half_even (x * 100) <= round_half_even (y * 100))%Z)
    by (apply round_half_even_mono; lra).
  unfold Qle. cbn. lia.
Qed.

Lemma round2_cents (n : Z) : round2 (n # 100) = n # 100.
Proof.
  unfold round2. f_equal.
  rewrite (PyFacts.round_half_even_comp ((n # 100) * 100) (inject_Z n)).
  - apply round_half_even_Z.
  - unfold Qeq. cbn. lia.
Qed.

Lemma round2_nonneg (x : Q) : 0 <= x -> 0 <= round2 x.
Proof.
  intros H. pose proof (round_half_even_mono (inject_Z 0) (x * 100)) as M.
  rewrite round_half_even_Z in M.
  assert (L : inject_Z 0 <= x * 100) by (change (inject_Z 0) with 0; lra).
  specialize (M L). unfold round2, Qle. cbn. lia.
Qed.

Lemma round2_nonpos (x : Q) : x <= 0 -> round2 x <= 0.
Proof.
  intros H. pose proof (round_half_even_mono (x * 100) (inject_Z 0)) as M.
  rewrite round_half_even_Z in M.
  assert (L : x * 100 <= inject_Z 0) by (change (inject_Z 0) with 0; lra).
  specialize (M L). unfold round2, Qle. cbn. lia.
Qed.
End RoundingOrder.

(** ** Rounding to a double *)

Section FloatOrder.
Local Open Scope Q_scope.

Lemma two_power_pos (k : Z) : 0 < 2 ^ k.
Proof. apply Qpower_0_lt. reflexivity. Qed.

Lemma two_power_Z (n : Z) : (0 <= n)%Z -> inject_Z (2 ^ n) == 2 ^ n.
Proof. intros H. rewrite Zpower_Qpower by exact H. reflexivity. Qed.

Lemma two_power_minus (n m : Z) : 2 ^ (n - m) == 2 ^ n / 2 ^ m.
Proof. apply Qpower_minus. discriminate. Qed.

(** Scaling by a positive factor keeps the order. *)
Lemma Qdiv_le_pos (x y u : Q) : 0 < u -> x <= y -> x / u <= y / u.
Proof.
  intros U L. unfold Qdiv. apply Qmult_le_compat_r; [exact L|].
  apply Qlt_le_weak, Qinv_lt_0_compat, U.
Qed.

Lemma fl_nonneg (x : Q) : 0 <= x -> 0 <= fl x.
Proof.
  intros H. unfold fl. destruct (Qeq_bool x 0); [discriminate|].
  set (ulp := 2 ^ _). assert (U : 0 < ulp) by apply two_power_pos.
  apply Qmult_le_0_compat; [|apply Qlt_le_weak, U].
  change 0 with (inject_Z 0). rewrite <- Zle_Qle.
  rewrite <- (round_half_even_Z 0). apply round_half_even_mono.
  apply Qle_shift_div_l; [exact U|]. change (inject_Z 0) with 0. lra.
Qed.

Lemma fl_nonpos (x : Q) : x <= 0 -> fl x <= 0.
Proof.
  intros H. unfold fl. destruct (Qeq_bool x 0); [discriminate|].
  set (ulp := 2 ^ _). assert (U : 0 < ulp) by apply two_power_pos.
  assert (R : (round_half_even (x / ulp) <= 0)%Z).
  { rewrite <- (round_half_even_Z 0). apply round_half_even_mono.
    apply Qle_shift_div_r; [exact U|]. change (inject_Z 0) with 0. lra. }
  rewrite Zle_Qle in R. change (inject_Z 0) with 0 in R.
  assert (E : inject_Z (round_half_even (x / ulp)) * ulp
              == - ((- inject_Z (round_half_even (x / ulp))) * ulp)) by ring.
  rewrite E.
  assert (0 <= (- inject_Z (round_half_even (x / ulp))) * ulp)
    by (apply Qmult_le_0_compat; lra).
  lra.
Qed.

Lemma two_power_ratio (n m : Z) :
  (0 <= n)%Z -> (0 <= m)%Z -> 2 ^ (n - m) == (2 ^ n)%Z # Z.to_pos (2 ^ m)%Z.
Proof.
  intros Hn Hm. rewrite two_power_minus.
  rewrite <- (two_power_Z n Hn), <- (two_power_Z m Hm).
  assert (P : (0 < 2 ^ m)%Z) by (apply Z.pow_pos_nonneg; lia).
  unfold Qeq, Qdiv, Qmult, Qinv, inject_Z. cbn [Qnum Qden].
  destruct (2 ^ m)%Z as [|k|k] eqn:E; try lia. cbn. lia.
Qed.

(** The binade is the one the value lies in. *)
Lemma binade_spec (x : Q) : 0 < x -> 2 ^ binade x <= x /\ x < 2 ^ (binade x + 1).
Proof.
  intros P. destruct x as [a b]. unfold binade. cbn [Qnum Qden].
  assert (A : (0 < a)%Z) by (unfold Qlt in P; cbn in P; lia).
  rewrite (Z.abs_eq a) by lia.
  set (la := Z.log2 a). set (lb := Z.log2 (Z.pos b)).
  destruct (Z.log2_spec a A) as [A1 A2]. fold la in A1, A2.
  destruct (Z.log2_spec (Z.pos b) eq_refl) as [B1 B2]. fold lb in B1, B2.
  assert (La : (0 <= la)%Z) by apply Z.log2_nonneg.
  assert (Lb : (0 <= lb)%Z) by apply Z.log2_nonneg.
  assert (Ab : Qabs (a # b) == a # b) by (apply Qabs_pos; apply Qlt_le_weak, P).
  assert (Pa : (0 < 2 ^ la)%Z) by (apply Z.pow_pos_nonneg; lia).
  assert (Pb : (0 < 2 ^ lb)%Z) by (apply Z.pow_pos_nonneg; lia).
  assert (Sa : (2 ^ Z.succ la = 2 * 2 ^ la)%Z) by (apply Z.pow_succ_r; lia).
  assert (Sb : (2 ^ Z.succ lb = 2 * 2 ^ lb)%Z) by (apply Z.pow_succ_r; lia).
  assert (Hi : a # b < 2 ^ (la - lb + 1)).
  { replace (la - lb + 1)%Z with (Z.succ la - lb)%Z by lia.
    rewrite two_power_ratio by lia. unfold Qlt. cbn [Qnum Qden].
    rewrite Z2Pos.id by lia. nia. }
  assert (Lo : 2 ^ (la - lb - 1) <= a # b).
  { replace (la - lb - 1)%Z with (la - Z.succ lb)%Z by lia.
    rewrite two_power_ratio by lia. unfold Qle. cbn [Qnum Qden].
    rewrite Z2Pos.id by lia. nia. }
  destruct (Qle_bool (2 ^ (la - lb)) (Qabs (a # b))) eqn:C.
  - apply Qle_bool_iff in C. rewrite Ab in C. split; [exact C|exact Hi].
  - split; [exact Lo|]. replace (la - lb - 1 + 1)%Z with (la - lb)%Z by lia.
    apply Qnot_le_lt. intros L. rewrite <- Ab in L. apply Qle_bool_iff in L. congruence.
Qed.

Lemma binade_mono (x y : Q) : 0 < x -> x <= y -> (binade x <= binade y)%Z.
Proof.
  intros P L. destruct (binade_spec x P) as [X1 _].
  destruct (binade_spec y) as [_ Y2]; [lra|].
  assert (H : 2 ^ binade x < 2 ^ (binade y + 1)) by lra.
  apply Qpower_lt_compat_l_inv in H; [lia|reflexivity].
Qed.

(** A power of two with enough room is its own rounding. *)
Lemma round_two_power (n : Z) : (0 <= n)%Z -> round_half_even (2 ^ n) = (2 ^ n)%Z.
Proof.
  intros H. rewrite <- (round_half_even_Z (2 ^ n)%Z).
  apply PyFacts.round_half_even_comp. rewrite two_power_Z by exact H. reflexivity.
Qed.

(** Rounding to a double keeps the order of positive values. *)
Lemma fl_mono_pos (x y : Q) : 0 < x -> x <= y -> fl x <= fl y.
Proof.
  intros P L. assert (Py : 0 < y) by lra.
  unfold fl.
  destruct (Qeq_bool x 0) eqn:Ex; [apply Qeq_bool_iff in Ex; lra|].
  destruct (Qeq_bool y 0) eqn:Ey; [apply Qeq_bool_iff in Ey; lra|].
  pose proof (binade_mono x y P L) as B.
  destruct (binade_spec x P) as [_ X2]. destruct (binade_spec y Py) as [Y1 _].
  set (kx := (Z.max (binade x) (-1022) - 52)%Z).
  set (ky := (Z.max (binade y) (-1022) - 52)%Z).
  assert (K : (kx <= ky)%Z) by (unfold kx, ky; lia).
  pose proof (two_power_pos kx) as Ux. pose proof (two_power_pos ky) as Uy.
  destruct (Z.eq_dec kx ky) as [E|N].
  - rewrite <- E. apply Qmult_le_compat_r; [|lra].
    rewrite <- Zle_Qle. apply round_half_even_mono, Qdiv_le_pos; assumption.
  - assert (By : (binade x < binade y)%Z /\ ky = (binade y - 52)%Z) by (unfold kx, ky in *; lia).
    destruct By as [Bxy Eky].
    apply Qle_trans with (2 ^ binade y).
    + (* x rounds to at most the next power of two *)
      assert (R : (round_half_even (x / 2 ^ kx) <= 2 ^ (binade y - kx))%Z).
      { rewrite <- (round_two_power (binade y - kx)) by (unfold kx; lia).
        apply round_half_even_mono. rewrite two_power_minus.
        apply Qdiv_le_pos; [exact Ux|].
        apply Qle_trans with (2 ^ (binade x + 1)); [lra|].
        apply Qpower_le_compat_l; [lia|discriminate]. }
      rewrite Zle_Qle in R. rewrite two_power_Z in R by (unfold kx; lia).
      rewrite two_power_minus in R.
      apply Qle_trans with (2 ^ binade y / 2 ^ kx * 2 ^ kx).
      * apply Qmult_le_compat_r; [exact R|lra].
      * unfold Qdiv. rewrite <- Qmult_assoc, (Qmult_comm (/ _)), Qmult_inv_r, Qmult_1_r;
          [apply Qle_refl|]. intros Z0. rewrite Z0 in Ux. discriminate Ux.
    + (* y rounds to at least the power of two below it *)
      assert (R : (2 ^ 52 <= round_half_even (y / 2 ^ ky))%Z).
      { rewrite <- (round_two_power 52) by lia.
        apply round_half_even_mono.
        replace 52%Z with (binade y - ky)%Z by lia. rewrite two_power_minus.
        apply Qdiv_le_pos; assumption. }
      rewrite Zle_Qle in R. rewrite two_power_Z in R by lia.
      apply Qle_trans with (2 ^ 52 * 2 ^ ky).
      * rewrite <- Qpower_plus by discriminate.
        replace (52 + ky)%Z with (binade y) by lia. apply Qle_refl.
      * apply Qmult_le_compat_r; [exact R|lra].
Qed.
End FloatOrder.

(** ** Fetching *)

Section Fetch.
Variables (tk : Ticker) (now : datetime) (symbol : string).

Lemma get_stock_data_exc_returns :
  exists r, get_stock_data_exc tk now symbol = inr r.
Proof.
  unfold get_stock_data_exc.
  destruct (get_stock_data_try tk now symbol); cbn; eauto.
Qed.

Lemma resolve_live (inf : Info) (p : Q) :
  live_price inf = Some p -> resolve_price tk inf = inr (Some p).
Proof.
  unfold live_price, usable, resolve_price, or_, get, truthy.
  destruct (currentPrice inf) as [[|c|c]|], (regularMarketPrice inf) as [[|r|r]|];
    cbn -[Qeq_bool inject_Z];
    repeat match goal with
           | |- context [Qeq_bool ?x 0] =>
               destruct (Qeq_bool x 0) eqn:?; cbn -[Qeq_bool inject_Z]
           end; try congruence;
    repeat match goal with
           | H : Qeq_bool ?x 0 = _ |- _ => rewrite H; cbn -[Qeq_bool inject_Z]
           end; congruence.
Qed.

Lemma resolve_fallback (inf : Info) :
  live_price inf = None ->
  resolve_price tk inf =
    match history_close tk with
    | inl e => inl e
    | inr [] => inr None
    | inr (c :: hist) => inr (Some (last (c :: hist) 0%Q))
    end.
Proof.
  unfold live_price, usable, resolve_price, or_, get, truthy.
  destruct (currentPrice inf) as [[|c|c]|], (regularMarketPrice inf) as [[|r|r]|];
    cbn -[Qeq_bool inject_Z];
    repeat match goal with
           | |- context [Qeq_bool ?x 0] =>
               destruct (Qeq_bool x 0) eqn:?; cbn -[Qeq_bool inject_Z]
           end; try congruence;
    repeat match goal with
           | H : Qeq_bool ?x 0 = _ |- _ => rewrite H; cbn -[Qeq_bool inject_Z]
           end; intros _; destruct (history_close tk) as [e|[|h hist]]; reflexivity.
Qed.

(** The dictionary built after price resolution. *)
Lemma get_stock_data_resolved (inf : Info) (p : Q) :
  info tk = inr inf ->
  resolve_price tk inf = inr (Some p) ->
  get_stock_data tk now symbol =
    match number (get_default (previousClose inf) (PyNum p)) with
    | None => None
    | Some pc => Some (quote_of symbol p pc inf now)
    end.
Proof.
  intros Hi Hr.
  unfold get_stock_data, get_stock_data_exc, get_stock_data_try, quote_of,
    derived_change_percent, change_percent_signbit, change_signbit, derived_change,
    sub, truediv, truthy.
  rewrite Hi. cbn. rewrite Hr. cbn.
  destruct (number (get_default (previousClose inf) (PyNum p))) as [pc|]; cbn;
    [|reflexivity].
  destruct (Qeq_bool pc 0); cbn; [reflexivity|].
  rewrite xorb_false_r. reflexivity.
Qed.

Lemma get_stock_data_unresolved (inf : Info) :
  info tk = inr inf ->
  resolve_price tk inf = inr None ->
  get_stock_data tk now symbol = None.
Proof.
  intros Hi Hr. unfold get_stock_data, get_stock_data_exc, get_stock_data_try.
  rewrite Hi. cbn. rewrite Hr. reflexivity.
Qed.

Lemma get_stock_data_inv (q : Quote) :
  get_stock_data tk now symbol = Some q ->
  exists inf p pc,
    info tk = inr inf /\ resolve_price tk inf = inr (Some p) /\
    number (get_default (previousClose inf) (PyNum p)) = Some pc /\
    q = quote_of symbol p pc inf now.
Proof.
  intros H.
  destruct (info tk) as [e|inf] eqn:Hi.
  - unfold get_stock_data, get_stock_data_exc, get_stock_data_try in H.
    rewrite Hi in H. discriminate.
  - destruct (resolve_price tk inf) as [e|[p|]] eqn:Hr.
    + unfold get_stock_data, get_stock_data_exc, get_stock_data_try in H.
      rewrite Hi in H. cbn in H. rewrite Hr in H. discriminate.
    + rewrite (get_stock_data_resolved inf p Hi Hr) in H.
      destruct (number (get_default (previousClose inf) (PyNum p))) as [pc|] eqn:Hpc;
        [|discriminate].
      injection H as <-. exists inf, p, pc. auto.
    + rewrite (get_stock_data_unresolved inf Hi Hr) in H. discriminate.
Qed.
End Fetch.

(** ** Alert evaluation *)

Section Triggered.
Variables (a : AlertRow) (q : Quote).

Lemma triggered_above :
  a_alert_type a = "above" ->
  (triggered a q = true <-> (a_threshold a <= q_price q)%Q).
Proof.
  intros T. unfold triggered. rewrite T. cbn.
  rewrite <- Qle_bool_iff. destruct (Qle_bool (a_threshold a) (q_price q)); intuition congruence.
Qed.

Lemma triggered_below :
  a_alert_type a = "below" ->
  (triggered a q = true <-> (q_price q <= a_threshold a)%Q).
Proof.
  intros T. unfold triggered. rewrite T. cbn.
  rewrite <- Qle_bool_iff. destruct (Qle_bool (q_price q) (a_threshold a)); intuition congruence.
Qed.

Lemma triggered_change_above :
  a_alert_type a = "change_above" ->
  (triggered a q = true <-> (a_threshold a <= q_change_percent q)%Q).
Proof.
  intros T. unfold triggered. rewrite T. cbn.
  rewrite <- Qle_bool_iff.
  destruct (Qle_bool (a_threshold a) (q_change_percent q)); intuition congruence.
Qed.

Lemma triggered_change_below :
  a_alert_type a = "change_below" ->
  (triggered a q = true <-> (q_change_percent q <= a_threshold a)%Q).
Proof.
  intros T. unfold triggered. rewrite T. cbn.
  rewrite <- Qle_bool_iff.
  destruct (Qle_bool (q_change_percent q) (a_threshold a)); intuition congruence.
Qed.
End Triggered.

Section CheckAlerts.
Variables (env : Env) (q : Quote)
          (ec : option EmailConfig) (tc : option TelegramConfig).

Lemma notify_db (a : AlertRow) (w : World) :
  db (notify env a q ec tc w) = db w.
Proof.
  unfold notify.
  destruct (a_email a) as [[|c e]|], ec, (a_telegram_chat_id a) as [[|c' t]|], tc;
    reflexivity.
Qed.

Lemma notify_trace (a : AlertRow) (w : World) :
  trace (notify env a q ec tc w)
  = trace w ++ notify_events env a q ec tc (List.length (trace w)).
Proof.
  unfold notify, notify_events, email_events, telegram_events.
  destruct (a_email a) as [[|c e]|], ec, (a_telegram_chat_id a) as [[|c' t]|], tc;
    cbn; rewrite ?app_nil_r, ?Nat.add_0_r, ?length_app, <- ?app_assoc; reflexivity.
Qed.

Lemma check_alert_fires (a : AlertRow) (w : World) :
  check_alert env q ec tc w a
  = if fires q a then deactivate_alert (a_id a) (notify env a q ec tc w) else w.
Proof.
  unfold check_alert, fires.
  destruct (a_symbol a =? q_symbol q)%string; cbn; reflexivity.
Qed.

Lemma check_alert_db (a : AlertRow) (w : World) :
  db (check_alert env q ec tc w a)
  = if fires q a then update_inactive (a_id a) (db w) else db w.
Proof.
  rewrite check_alert_fires. destruct (fires q a); [|reflexivity].
  cbn. rewrite notify_db. reflexivity.
Qed.

Lemma check_alert_trace (a : AlertRow) (w : World) :
  trace (check_alert env q ec tc w a)
  = trace w ++
      (if fires q a
       then notify_events env a q ec tc (List.length (trace w)) ++ [Deactivate (a_id a)]
       else []).
Proof.
  rewrite check_alert_fires. destruct (fires q a); cbn.
  - rewrite notify_trace, app_assoc. reflexivity.
  - rewrite app_nil_r. reflexivity.
Qed.

(** The loop over a snapshot [l] of rules. *)
Lemma fold_check_alert_db (l : list AlertRow) (w : World) :
  db (fold_left (check_alert env q ec tc) l w)
  = fold_left (fun d a => if fires q a then update_inactive (a_id a) d else d) l (db w).
Proof.
  revert w. induction l as [|a l IH]; intros w; cbn; [reflexivity|].
  rewrite IH, check_alert_db. reflexivity.
Qed.

Lemma fold_check_alert_trace_prefix (l : list AlertRow) (w : World) :
  exists evs, trace (fold_left (check_alert env q ec tc) l w) = trace w ++ evs.
Proof.
  revert w. induction l as [|a l IH]; intros w; cbn.
  - exists []. rewrite app_nil_r. reflexivity.
  - destruct (IH (check_alert env q ec tc w a)) as [evs E].
    rewrite E, check_alert_trace, <- app_assoc. eauto.
Qed.
End CheckAlerts.

(** Facts on the [UPDATE] of [deactivate_alert]. *)
Section Update.

Lemma is_active_id_update (i j : Z) (d : DB) :
  is_active_id i (update_inactive j d) = negb (i =? j) && is_active_id i d.
Proof.
  unfold is_active_id, update_inactive. cbn.
  induction (alerts d) as [|a l IH]; cbn.
  - rewrite andb_false_r. reflexivity.
  - rewrite IH.
    destruct (a_id a =? j) eqn:E1, (i =? j) eqn:E2, (a_id a =? i) eqn:E3; cbn;
      rewrite ?E3; cbn; try reflexivity; try lia.
Qed.

Lemma update_inactive_idem (i : Z) (d : DB) :
  update_inactive i (update_inactive i d) = update_inactive i d.
Proof.
  unfold update_inactive. cbn. f_equal.
  rewrite map_map. apply map_ext. intros a.
  destruct (a_id a =? i) eqn:E; cbn; rewrite E; reflexivity.
Qed.

Lemma update_inactive_ids (i : Z) (d : DB) :
  map a_id (alerts (update_inactive i d)) = map a_id (alerts d).
Proof.
  unfold update_inactive. cbn. rewrite map_map. apply map_ext.
  intros a. destruct (a_id a =? i); reflexivity.
Qed.

Lemma update_inactive_seq (i : Z) (d : DB) :
  alerts_seq (update_inactive i d) = alerts_seq d.
Proof. reflexivity. Qed.

Lemma active_ids_iff (i : Z) (w : World) :
  In i (active_ids w) <-> is_active_id i (db w) = true.
Proof.
  unfold active_ids, get_active_alerts, is_active_id.
  rewrite in_map_iff, existsb_exists. split.
  - intros [a [E H]]. apply filter_In in H. exists a. split; [tauto|].
    rewrite E, Z.eqb_refl. tauto.
  - intros [a [H E]]. apply andb_true_iff in E. exists a. split; [lia|].
    apply filter_In. tauto.
Qed.
End Update.

Section Snapshot.
Variables (env : Env) (q : Quote)
          (ec : option EmailConfig) (tc : option TelegramConfig).

Lemma fold_update_active (i : Z) (l : list AlertRow) (d : DB) :
  is_active_id i
    (fold_left (fun d a => if fires q a then update_inactive (a_id a) d else d) l d)
  = is_active_id i d && negb (existsb (fun a => (a_id a =? i) && fires q a) l).
Proof.
  revert d. induction l as [|a l IH]; intros d; cbn.
  - rewrite andb_true_r. reflexivity.
  - rewrite IH. destruct (fires q a) eqn:F.
    + rewrite is_active_id_update, andb_true_r, (Z.eqb_sym i (a_id a)).
      destruct (a_id a =? i), (is_active_id i d); reflexivity.
    + rewrite andb_false_r. reflexivity.
Qed.

Lemma check_alerts_active (i : Z) (w : World) :
  is_active_id i (db (check_alerts env q ec tc w))
  = is_active_id i (db w)
    && negb (existsb (fun a => (a_id a =? i) && fires q a) (get_active_alerts (db w))).
Proof. unfold check_alerts. rewrite fold_check_alert_db. apply fold_update_active. Qed.

Lemma same_id_same_row (l : list AlertRow) (a b : AlertRow) :
  NoDup (map a_id l) -> In a l -> In b l -> a_id a = a_id b -> a = b.
Proof.
  induction l as [|x l IH]; cbn; [tauto|].
  intros N Ha Hb E. inversion N as [|? ? Hx N']; subst.
  destruct Ha as [<-|Ha], Hb as [<-|Hb]; auto.
  - exfalso. apply Hx. rewrite E. apply in_map. exact Hb.
  - exfalso. apply Hx. rewrite <- E. apply in_map. exact Ha.
Qed.

Lemma check_alerts_keeps_active (w : World) (a : AlertRow) :
  NoDup (alert_ids w) -> In a (get_active_alerts (db w)) ->
  (In (a_id a) (active_ids (check_alerts env q ec tc w)) <-> fires q a = false).
Proof.
  intros N Ha. rewrite active_ids_iff, check_alerts_active.
  assert (Hact : is_active_id (a_id a) (db w) = true).
  { apply active_ids_iff. unfold active_ids. apply in_map. exact Ha. }
  rewrite Hact. cbn. rewrite negb_true_iff. split.
  - intros H. destruct (fires q a) eqn:F; [|reflexivity].
    rewrite <- H. symmetry. apply existsb_exists. exists a.
    rewrite Z.eqb_refl, F. auto.
  - intros F. destruct (existsb _ _) eqn:X; [|reflexivity].
    apply existsb_exists in X. destruct X as [b [Hb Eb]].
    apply andb_true_iff in Eb. destruct Eb as [Eid Fb].
    assert (b = a).
    { apply (same_id_same_row (alerts (db w))); auto.
      - apply filter_In in Hb. tauto.
      - apply filter_In in Ha. tauto.
      - lia. }
    subst b. congruence.
Qed.

Lemma check_alerts_trace_at (w : World) (l1 l2 : list AlertRow) (a : AlertRow) :
  get_active_alerts (db w) = l1 ++ a :: l2 -> fires q a = true ->
  exists post,
    let w1 := fold_left (check_alert env q ec tc) l1 w in
    trace (check_alerts env q ec tc w)
    = trace w1 ++ notify_events env a q ec tc (List.length (trace w1))
        ++ [Deactivate (a_id a)] ++ post.
Proof.
  intros E F. unfold check_alerts. rewrite E, fold_left_app. cbn.
  destruct (fold_check_alert_trace_prefix env q ec tc l2
              (check_alert env q ec tc (fold_left (check_alert env q ec tc) l1 w) a))
    as [post Hp].
  exists post. cbn. rewrite Hp, check_alert_trace, F, <- !app_assoc. reflexivity.
Qed.
End Snapshot.

(** What every command preserves about the rules. *)
Section Lifecycle.
Variable env : Env.

Lemma shrinks_refl (w : World) : shrinks w w.
Proof. unfold shrinks. auto. Qed.

Lemma shrinks_trans (w1 w2 w3 : World) :
  shrinks w1 w2 -> shrinks w2 w3 -> shrinks w1 w3.
Proof.
  unfold shrinks. intros (A1 & B1 & C1) (A2 & B2 & C2).
  repeat split; try congruence. auto.
Qed.

Lemma shrinks_same_alerts (w w' : World) :
  alerts (db w') = alerts (db w) -> alerts_seq (db w') = alerts_seq (db w) -> shrinks w w'.
Proof.
  unfold shrinks, alert_ids, is_active_id. intros -> ->. auto.
Qed.

Lemma shrinks_deactivate (i : Z) (w : World) : shrinks w (deactivate_alert i w).
Proof.
  unfold shrinks, alert_ids, deactivate_alert. cbn [db].
  rewrite update_inactive_ids. repeat split.
  intros j. rewrite is_active_id_update. intros H. apply andb_true_iff in H. tauto.
Qed.

Lemma shrinks_check_alert q ec tc (w : World) (a : AlertRow) :
  shrinks w (check_alert env q ec tc w a).
Proof.
  rewrite check_alert_fires. destruct (fires q a); [|apply shrinks_refl].
  eapply shrinks_trans; [|apply shrinks_deactivate].
  apply shrinks_same_alerts; rewrite notify_db; reflexivity.
Qed.

Lemma shrinks_fold {A : Type} (f : World -> A -> World) (l : list A) :
  (forall w x, shrinks w (f w x)) -> forall w, shrinks w (fold_left f l w).
Proof.
  intros Hf. induction l as [|x l IH]; intros w; cbn; [apply shrinks_refl|].
  eapply shrinks_trans; [apply Hf | apply IH].
Qed.

Lemma shrinks_check_alerts q ec tc (w : World) :
  shrinks w (check_alerts env q ec tc w).
Proof. unfold check_alerts. apply shrinks_fold. intros. apply shrinks_check_alert. Qed.

Lemma shrinks_track_symbol n ec tc (w : World) (symbol : string) :
  shrinks w (track_symbol env n ec tc w symbol).
Proof.
  unfold track_symbol. destruct (get_stock_data _ _ _); [|apply shrinks_refl].
  eapply shrinks_trans; [|apply shrinks_check_alerts].
  apply shrinks_same_alerts; reflexivity.
Qed.

Lemma shrinks_cycle n ec tc (w : World) : shrinks w (cycle env n ec tc w).
Proof. unfold cycle. apply shrinks_fold. intros. apply shrinks_track_symbol. Qed.

Lemma ids_bounded_alt (w : World) :
  ids_bounded (db w) <-> forall i, In i (alert_ids w) -> i <= alerts_seq (db w).
Proof.
  unfold ids_bounded, alert_ids. rewrite Forall_forall. split.
  - intros H i Hi. apply in_map_iff in Hi. destruct Hi as [a [<- Ha]]. auto.
  - intros H a Ha. apply H. apply in_map. exact Ha.
Qed.

Lemma retired_shrinks (i : Z) (w w' : World) :
  shrinks w w' -> retired i w -> retired i w'.
Proof.
  intros (A & B & C) (Hb & Hi & Hn). unfold retired.
  rewrite ids_bounded_alt in *. rewrite A, B. repeat split; auto.
  destruct (is_active_id i (db w')) eqn:E; [|reflexivity].
  apply C in E. congruence.
Qed.

Lemma retired_create (i : Z) (w : World) symbol ty th em chat now :
  retired i w ->
  retired i (mkWorld (create_alert symbol ty th em chat now (db w)) (trace w)).
Proof.
  intros (Hb & Hi & Hn). unfold retired.
  pose proof (proj1 (ids_bounded_alt w) Hb) as Hle.
  rewrite ids_bounded_alt. unfold alert_ids, is_active_id in *. cbn.
  rewrite map_app, existsb_app. cbn. repeat split.
  - intros j Hj. apply in_app_or in Hj. destruct Hj as [Hj|[<-|[]]]; [|lia].
    specialize (Hle j Hj). lia.
  - apply in_or_app. auto.
  - rewrite Hn. cbn. specialize (Hle i Hi).
    destruct (alerts_seq (db w) + 1 =? i) eqn:E; [lia|reflexivity].
Qed.

Lemma ids_bounded_shrinks (w w' : World) :
  shrinks w w' -> ids_bounded (db w) -> ids_bounded (db w').
Proof. intros (A & B & _). rewrite !ids_bounded_alt, A, B. auto. Qed.

Lemma shrinks_watchlist_commands (w : World) (c : command) :
  match c with
  | AddToWatchlist _ _ | RemoveFromWatchlist _ | StoreStockData _ => shrinks w (run_command env w c)
  | _ => True
  end.
Proof.
  destruct c; try exact I; apply shrinks_same_alerts; cbn; try reflexivity;
    unfold add_to_watchlist; destruct (in_watchlist _ _); reflexivity.
Qed.

Lemma retired_run_command (i : Z) (w : World) (c : command) :
  retired i w -> retired i (run_command env w c).
Proof.
  intros H. pose proof (shrinks_watchlist_commands w c) as Hw.
  destruct c; try (exact (retired_shrinks i _ _ Hw H)); cbn [run_command].
  - apply retired_create, H.
  - exact (retired_shrinks i _ _ (shrinks_deactivate _ _) H).
  - exact (retired_shrinks i _ _ (shrinks_check_alerts _ _ _ _) H).
  - exact (retired_shrinks i _ _ (shrinks_cycle _ _ _ _) H).
Qed.

Lemma retired_run (i : Z) (cs : list command) (w : World) :
  retired i w -> retired i (run env cs w).
Proof.
  unfold run. revert w. induction cs as [|c cs IH]; intros w H; cbn; [exact H|].
  apply IH, retired_run_command, H.
Qed.

Lemma ids_bounded_run_command (w : World) (c : command) :
  ids_bounded (db w) -> ids_bounded (db (run_command env w c)).
Proof.
  intros Hb. pose proof (shrinks_watchlist_commands w c) as Hw.
  destruct c; try (exact (ids_bounded_shrinks _ _ Hw Hb)); cbn [run_command].
  - unfold ids_bounded in *. cbn. apply Forall_app. split.
    + eapply Forall_impl; [|exact Hb]. cbn. intros; lia.
    + repeat constructor. cbn. lia.
  - exact (ids_bounded_shrinks _ _ (shrinks_deactivate _ _) Hb).
  - exact (ids_bounded_shrinks _ _ (shrinks_check_alerts _ _ _ _) Hb).
  - exact (ids_bounded_shrinks _ _ (shrinks_cycle _ _ _ _) Hb).
Qed.

Lemma ids_bounded_run (cs : list command) (w : World) :
  ids_bounded (db w) -> ids_bounded (db (run env cs w)).
Proof.
  unfold run. revert w. induction cs as [|c cs IH]; intros w H; cbn; [exact H|].
  apply IH, ids_bounded_run_command, H.
Qed.

Lemma ids_bounded_initial : ids_bounded (db initial).
Proof. constructor. Qed.
End Lifecycle.

(** ** Ordering, the loop, and the message text *)

Section InsertionSort.
Context {A : Type} (leb : A -> A -> bool).
Hypothesis leb_total : forall x y, leb x y = false -> leb y x = true.
Hypothesis leb_trans : forall x y z, leb x y = true -> leb y z = true -> leb x z = true.

Lemma insert_sorted_perm (x : A) (l : list A) :
  Permutation (insert_sorted leb x l) (x :: l).
Proof.
  induction l as [|y l IH]; cbn; [reflexivity|].
  destruct (leb x y); [reflexivity|].
  rewrite IH. apply perm_swap.
Qed.

Lemma order_by_perm (l : list A) : Permutation (order_by leb l) l.
Proof.
  induction l as [|x l IH]; cbn; [reflexivity|].
  rewrite insert_sorted_perm. apply perm_skip, IH.
Qed.

Lemma insert_sorted_sorted (x : A) (l : list A) :
  StronglySorted (fun x y => leb x y = true) l -> StronglySorted (fun x y => leb x y = true) (insert_sorted leb x l).
Proof.
  induction 1 as [|y l Hs IH Hy]; cbn.
  - repeat constructor.
  - destruct (leb x y) eqn:E.
    + constructor; [constructor; assumption|].
      constructor; [exact E|].
      eapply Forall_impl; [|exact Hy]. intros z Hz. exact (leb_trans _ _ _ E Hz).
    + constructor; [exact IH|].
      eapply Permutation_Forall; [symmetry; apply insert_sorted_perm|].
      constructor; [apply leb_total, E | exact Hy].
Qed.

Lemma order_by_sorted (l : list A) : StronglySorted (fun x y => leb x y = true) (order_by leb l).
Proof.
  induction l as [|x l IH]; cbn; [constructor|].
  apply insert_sorted_sorted, IH.
Qed.
End InsertionSort.

Section DatetimeOrder.

Lemma lex_compare_antisym (a b : list Z) :
  lex_compare b a = CompOpp (lex_compare a b).
Proof.
  revert b. induction a as [|x a IH]; intros [|y b]; cbn; try reflexivity.
  rewrite (Z.compare_antisym x y).
  destruct (x ?= y); cbn; auto.
Qed.

Lemma lex_compare_trans (a b c : list Z) :
  lex_compare a b <> Gt -> lex_compare b c <> Gt -> lex_compare a c <> Gt.
Proof.
  revert b c. induction a as [|x a IH]; intros [|y b] [|z c]; cbn; try congruence.
  destruct (Z.compare_spec x y), (Z.compare_spec y z), (Z.compare_spec x z);
    subst; try congruence; try lia.
  apply IH.
Qed.

Lemma dt_leb_total (s t : datetime) : dt_leb s t = false -> dt_leb t s = true.
Proof.
  unfold dt_leb. rewrite (lex_compare_antisym (fields s) (fields t)).
  destruct (lex_compare (fields s) (fields t)); cbn; congruence.
Qed.

Lemma dt_leb_trans (s t u : datetime) :
  dt_leb s t = true -> dt_leb t u = true -> dt_leb s u = true.
Proof.
  unfold dt_leb. intros H1 H2.
  pose proof (lex_compare_trans (fields s) (fields t) (fields u)) as T.
  destruct (lex_compare (fields s) (fields t)), (lex_compare (fields t) (fields u)),
    (lex_compare (fields s) (fields u)); try reflexivity; try discriminate;
    exfalso; apply T; congruence.
Qed.

Lemma select_stocks_sorted (symbol : string) (cutoff : datetime) (d : DB) :
  StronglySorted (fun r s => dt_le (s_timestamp r) (s_timestamp s))
                 (select_stocks symbol cutoff d).
Proof.
  unfold select_stocks, dt_le.
  apply (order_by_sorted (fun r s => dt_leb (s_timestamp r) (s_timestamp s))).
  - intros x y. apply dt_leb_total.
  - intros x y z. apply dt_leb_trans.
Qed.

(** What [get_historical_data] returns: the rows selected, unless the
    cutoff cannot be computed or the timestamps cannot be parsed. *)
Lemma get_historical_data_eq (symbol : string) (days : Z) (now : datetime) (d : DB) :
  get_historical_data symbol days now d
  = match minus_days now days with
    | inl _ => []
    | inr cutoff =>
        if uniform (map s_timestamp (select_stocks (upper symbol) cutoff d))
        then select_stocks (upper symbol) cutoff d
        else []
    end.
Proof.
  unfold get_historical_data, get_historical_data_try.
  destruct (minus_days now days) as [e|cutoff]; cbn; [reflexivity|].
  destruct (select_stocks (upper symbol) cutoff d) as [|r df]; [reflexivity|].
  cbn [map to_datetime uniform].
  destruct (forallb _ _); reflexivity.
Qed.

Lemma get_historical_data_sorted (symbol : string) (days : Z) (now : datetime) (d : DB) :
  StronglySorted (fun r s => dt_le (s_timestamp r) (s_timestamp s))
                 (get_historical_data symbol days now d).
Proof.
  rewrite get_historical_data_eq.
  destruct (minus_days now days) as [e|cutoff]; [constructor|].
  destruct (uniform _); [apply select_stocks_sorted|constructor].
Qed.
End DatetimeOrder.

Section Loop.
Variables (env : Env) (ec : option EmailConfig) (tc : option TelegramConfig).

Lemma track_stopped (fuel n k : nat) (w w' : World) :
  track env ec tc fuel n w = Stopped k w' ->
  tracking_active env k = false /\
  (forall j, (n <= j < k)%nat -> tracking_active env j = true).
Proof.
  revert n w. induction fuel as [|fuel IH]; intros n w; cbn; [discriminate|].
  destruct (tracking_active env n) eqn:E.
  - intros H. destruct (IH _ _ H) as [Hk Hj]. split; [exact Hk|].
    intros j Hr. destruct (Nat.eq_dec j n) as [->|Hne]; [exact E|].
    apply Hj. lia.
  - intros H. injection H as <- <-. split; [exact E|]. intros j Hr. lia.
Qed.

Lemma track_running (fuel n : nat) (w : World) :
  (forall j, (n <= j < n + fuel)%nat -> tracking_active env j = true) ->
  exists w', track env ec tc fuel n w = StillRunning (n + fuel) w'.
Proof.
  revert n w. induction fuel as [|fuel IH]; intros n w H; cbn.
  - exists w. rewrite Nat.add_0_r. reflexivity.
  - rewrite (H n) by lia.
    destruct (IH (S n) (cycle env n ec tc w)) as [w' E].
    + intros j Hj. apply H. lia.
    + exists w'. rewrite E. f_equal. lia.
Qed.
End Loop.

Section Text.

Lemma prefix_append (s post : string) : String.prefix s (s ++ post)%string = true.
Proof.
  induction s as [|c s IH]; cbn; [destruct post; reflexivity|].
  destruct (ascii_dec c c); [exact IH|congruence].
Qed.

Lemma is_infix_prefix (s m : string) : String.prefix s m = true -> is_infix s m = true.
Proof. intros H. destruct m; cbn in *; rewrite H; reflexivity. Qed.

Lemma contains_is_infix (s m : string) : contains s m -> is_infix s m = true.
Proof.
  intros (pre & post & ->). induction pre as [|c pre IH].
  - change (is_infix s (s ++ post)%string = true).
    apply is_infix_prefix, prefix_append.
  - cbn. cbn in IH. rewrite IH. apply orb_true_r.
Qed.

Lemma prefix_inv (s m : string) :
  String.prefix s m = true -> exists post, m = (s ++ post)%string.
Proof.
  revert m. induction s as [|c s IH]; intros m H.
  - exists m. reflexivity.
  - destruct m as [|c' m]; [discriminate|]. cbn [String.prefix] in H.
    destruct (ascii_dec c c') as [E|]; [subst c'|discriminate].
    destruct (IH m H) as [post E]. exists post. cbn. rewrite <- E. reflexivity.
Qed.

Lemma is_infix_eq (s m : string) :
  is_infix s m
  = String.prefix s m || match m with EmptyString => false | String _ m' => is_infix s m' end.
Proof. destruct m; reflexivity. Qed.

Lemma is_infix_contains (s m : string) : is_infix s m = true -> contains s m.
Proof.
  induction m as [|c m IH]; intros H; rewrite is_infix_eq in H;
    apply orb_true_iff in H; destruct H as [H|H]; try discriminate;
    try (destruct (prefix_inv _ _ H) as [post E]; exists ""%string, post; exact E).
  destruct (IH H) as (pre & post & ->). exists (String c pre), post. reflexivity.
Qed.

Lemma string_app_assoc (x y z : string) : ((x ++ y) ++ z = x ++ (y ++ z))%string.
Proof. induction x as [|c x IH]; cbn; [reflexivity|]. rewrite IH. reflexivity. Qed.

Lemma pad_ok_all : forallb pad_ok (map Z.of_nat (seq 0 100)) = true.
Proof. vm_compute. reflexivity. Qed.

Lemma pad_two_digits (k : Z) :
  0 <= k < 100 ->
  exists d1 d2, zero_pad 2 (digits k) = String d1 (String d2 EmptyString)
                /\ is_digit d1 = true /\ is_digit d2 = true.
Proof.
  intros Hk. pose proof pad_ok_all as H. rewrite forallb_forall in H.
  specialize (H k). unfold pad_ok in H.
  destruct (zero_pad 2 (digits k)) as [|d1 [|d2 [|? ?]]];
    try (discriminate H; rewrite <- (Z2Nat.id k) by lia; apply in_map, in_seq; lia).
  exists d1, d2. split; [reflexivity|]. apply andb_true_iff. apply H.
  rewrite <- (Z2Nat.id k) by lia. apply in_map, in_seq. lia.
Qed.

Lemma format_plus_2f_two_decimals (z : bool) (x : Q) :
  two_decimals (format_plus_2f z x).
Proof.
  unfold two_decimals, format_plus_2f.
  set (n := Z.abs (round_half_even (x * 100))).
  destruct (pad_two_digits (n mod 100)) as (d1 & d2 & E & H1 & H2).
  { apply Z.mod_pos_bound. lia. }
  rewrite E.
  exists ((if signbit z x then "-" else "+") ++ digits (n / 100))%string, d1, d2.
  split; [|auto].
  destruct (signbit z x); cbn; reflexivity.
Qed.
End Text.

(** * The claims *)

Import Samples.

(** ** Runs on sample data *)

Example round2_example : Py.round2 (199996 # 1000) = 20000 # 100.
Proof. reflexivity. Qed.

Example round2_tie_to_even : Py.round2 (125 # 1000) = 12 # 100.
Proof. reflexivity. Qed.

Example format_plus_2f_example : format_plus_2f false (234 # 100) = "+2.34"%string.
Proof. reflexivity. Qed.

Example format_plus_2f_negative : format_plus_2f true (-(15 # 10)) = "-1.50"%string.
Proof. reflexivity. Qed.

Example format_plus_2f_minus_zero :
  format_plus_2f true 0 = "-0.00"%string /\ format_plus_2f false 0 = "+0.00"%string.
Proof. split; reflexivity. Qed.

(** [45.75 - 40.0], [5.75 / 40.0] and [0.14375 * 100] in doubles: the last
    product is 14.374999999999998. *)
Example fl_example :
  Qred (fl (fl (fl ((4575 # 100) - 40) / 40) * 100))
  = 8092405580431359 # 562949953421312.
Proof. vm_compute. reflexivity. Qed.

Example str_float_whole : str_float (200 # 1) = "200.0"%string.
Proof. vm_compute. reflexivity. Qed.

Example str_float_cents : str_float (19999 # 100) = "199.99"%string.
Proof. vm_compute. reflexivity. Qed.

Example str_float_small : str_float (1 # 100000) = "1e-05"%string.
Proof. vm_compute. reflexivity. Qed.

Example str_float_large : str_float 12345678901234567890 = "1.2345678901234567e+19"%string.
Proof. vm_compute. reflexivity. Qed.

Example str_float_long : str_float (1 # 3) = "0.3333333333333333"%string.
Proof. vm_compute. reflexivity. Qed.

Example strftime_example :
  strftime (mkDatetime 2024 3 7 9 5 0 12) = "2024-03-07 09:05:00"%string.
Proof. reflexivity. Qed.

Example upper_example : upper "aapl.x" = "AAPL.X"%string.
Proof. reflexivity. Qed.

Example minus_days_leap : minus_days t0 1 = inr (mkDatetime 2024 2 29 9 30 0 0).
Proof. reflexivity. Qed.

Example minus_days_overflow :
  minus_days t0 1000000 = inl OverflowError /\ minus_days t0 1000000000 = inl OverflowError.
Proof. split; reflexivity. Qed.

Example watchlist_example : get_watchlist (db w0) = ["ZZZZ"; "AAPL"]%string.
Proof. reflexivity. Qed.

(** Three cycles on the sample world: 199.99 does not fire the rule, 200.00
    fires it (both transports are tried and fail, the rule is deactivated),
    205.00 finds no active rule; ZZZZ is skipped in every cycle. *)
Example three_cycles :
  exists w,
    track env0 (Some email_cfg) (Some telegram_cfg) 10 0 w0 = Stopped 3 w
    /\ map s_price (stocks (db w)) = [19999 # 100; 20000 # 100; 20500 # 100]
    /\ map s_symbol (stocks (db w)) = ["AAPL"; "AAPL"; "AAPL"]%string
    /\ active_ids w = []
    /\ exists m,
         trace w = [SendEmail "user@example.com" "Stock Alert: AAPL" m email_cfg false;
                    SendTelegram "123456789" m "TOKEN" false;
                    Deactivate 1].
Proof.
  eexists. split; [vm_compute; reflexivity|].
  repeat split. eexists. reflexivity.
Qed.

(** ** Alert evaluation (C1) *)

(** C1.  For a quote and a rule of the same symbol, the rule fires iff the
    inclusive comparison of its kind holds: kind [above] (the price-above
    kind) iff price >= threshold, [below] (price-below) iff price <=
    threshold, [change_above] iff change_percent >= threshold,
    [change_below] iff change_percent <= threshold; a quote exactly at the
    threshold fires; a rule of another symbol never fires.  [check_alert]
    acts on exactly the rules that fire, and an active rule is still active
    after [check_alerts] iff it did not fire. *)
Theorem alert_fires_iff_inclusive_comparison :
  forall (q : Quote) (a : AlertRow),
    (a_symbol a = q_symbol q ->
       (a_alert_type a = "above"%string ->
          (fires q a = true <-> (a_threshold a <= q_price q)%Q)) /\
       (a_alert_type a = "below"%string ->
          (fires q a = true <-> (q_price q <= a_threshold a)%Q)) /\
       (a_alert_type a = "change_above"%string ->
          (fires q a = true <-> (a_threshold a <= q_change_percent q)%Q)) /\
       (a_alert_type a = "change_below"%string ->
          (fires q a = true <-> (q_change_percent q <= a_threshold a)%Q))) /\
    (a_symbol a = q_symbol q ->
       (a_alert_type a = "above"%string \/ a_alert_type a = "below"%string ->
          (q_price q == a_threshold a)%Q -> fires q a = true) /\
       (a_alert_type a = "change_above"%string \/ a_alert_type a = "change_below"%string ->
          (q_change_percent q == a_threshold a)%Q -> fires q a = true)) /\
    (a_symbol a <> q_symbol q -> fires q a = false) /\
    (forall env ec tc w,
        check_alert env q ec tc w a
        = if fires q a then deactivate_alert (a_id a) (notify env a q ec tc w) else w) /\
    (forall env ec tc w,
        NoDup (alert_ids w) -> In a (get_active_alerts (db w)) ->
        (In (a_id a) (active_ids (check_alerts env q ec tc w)) <-> fires q a = false)).
Proof.
  intros q a.
  assert (K : a_symbol a = q_symbol q -> fires q a = triggered a q).
  { intros E. unfold fires. rewrite E, String.eqb_refl. reflexivity. }
  split; [|split; [|split; [|split]]].
  - intros E. rewrite (K E).
    split; [|split; [|split]]; intros T;
      first [ exact (triggered_above a q T) | exact (triggered_below a q T)
            | exact (triggered_change_above a q T) | exact (triggered_change_below a q T) ].
  - intros E. rewrite (K E). split; intros [T|T] B.
    + apply (triggered_above a q T). rewrite B. apply Qle_refl.
    + apply (triggered_below a q T). rewrite B. apply Qle_refl.
    + apply (triggered_change_above a q T). rewrite B. apply Qle_refl.
    + apply (triggered_change_below a q T). rewrite B. apply Qle_refl.
  - intros N. unfold fires.
    destruct (String.eqb_spec (a_symbol a) (q_symbol q)); [contradiction|reflexivity].
  - intros. apply check_alert_fires.
  - intros. apply check_alerts_keeps_active; assumption.
Qed.

Lemma alert_fires_iff_inclusive_comparison_witness :
  fires quote200 rule200 = true
  /\ ~ In 1 (active_ids (check_alerts env0 quote200 None None w0)).
Proof.
  destruct (alert_fires_iff_inclusive_comparison quote200 rule200)
    as (K & B & _ & _ & E).
  split.
  - apply (proj1 (B eq_refl)); [left; reflexivity | reflexivity].
  - intros H. apply (E env0 None None w0) in H.
    + assert (F : fires quote200 rule200 = true)
        by (apply (proj2 (proj1 (K eq_refl) eq_refl)); discriminate).
      rewrite F in H. discriminate H.
    + repeat constructor. intros [].
    + left. reflexivity.
Defined.

(** ** Notification and deactivation (C2, C3, C7) *)

(** C2.  For a rule that fires, the email attempt (when the rule has an
    email and the email settings are given), then the Telegram attempt
    (likewise), then the deactivation are appended to the trace, in that
    order, whatever the outcome of either transport call; afterwards the
    rule is inactive.  The same holds for every firing rule of the snapshot
    that [check_alerts] iterates over. *)
Theorem notify_then_deactivate :
  forall (env : Env) (q : Quote) (ec : option EmailConfig) (tc : option TelegramConfig)
         (w : World) (a : AlertRow),
    fires q a = true ->
    let k := List.length (trace w) in
    let es := email_events env a q ec k in
    let ts := telegram_events env a q tc (k + List.length es) in
    trace (check_alert env q ec tc w a) = trace w ++ es ++ ts ++ [Deactivate (a_id a)]
    /\ (forall c e cfg, a_email a = Some (String c e) -> ec = Some cfg ->
          es = [SendEmail (String c e) ("Stock Alert: " ++ q_symbol q)
                          (alert_message a q) cfg (transport_ok env k)])
    /\ (forall c t cfg, a_telegram_chat_id a = Some (String c t) -> tc = Some cfg ->
          ts = [SendTelegram (String c t) (alert_message a q) (bot_token cfg)
                             (transport_ok env (k + List.length es))])
    /\ is_active_id (a_id a) (db (check_alert env q ec tc w a)) = false
    /\ (forall l1 l2, get_active_alerts (db w) = l1 ++ a :: l2 ->
          exists pre post k',
            trace (check_alerts env q ec tc w)
            = pre ++ notify_events env a q ec tc k' ++ [Deactivate (a_id a)] ++ post)
    /\ (In a (get_active_alerts (db w)) ->
          is_active_id (a_id a) (db (check_alerts env q ec tc w)) = false).
Proof.
  intros env q ec tc w a F k es ts.
  split; [|split; [|split; [|split; [|split]]]].
  - rewrite check_alert_trace, F. unfold notify_events. fold k. fold es. fold ts.
    rewrite <- app_assoc. reflexivity.
  - intros c e cfg Ha Hc. unfold es, email_events. rewrite Ha, Hc. reflexivity.
  - intros c t cfg Ha Hc. unfold ts, telegram_events. rewrite Ha, Hc. reflexivity.
  - rewrite check_alert_db, F, is_active_id_update, Z.eqb_refl. reflexivity.
  - intros l1 l2 E.
    destruct (check_alerts_trace_at env q ec tc w l1 l2 a E F) as [post Hp].
    eexists _, post, _. exact Hp.
  - intros Ha. rewrite check_alerts_active.
    assert (X : existsb (fun b => (a_id b =? a_id a) && fires q b)
                        (get_active_alerts (db w)) = true).
    { apply existsb_exists. exists a. rewrite Z.eqb_refl, F. auto. }
    rewrite X. apply andb_false_r.
Qed.

Lemma notify_then_deactivate_witness :
  trace (check_alert env0 quote200 (Some email_cfg) (Some telegram_cfg) w0 rule200)
  = [SendEmail "user@example.com" "Stock Alert: AAPL" (alert_message rule200 quote200)
               email_cfg false;
     SendTelegram "123456789" (alert_message rule200 quote200) "TOKEN" false;
     Deactivate 1]
  /\ is_active_id 1 (db (check_alerts env0 quote200 (Some email_cfg) (Some telegram_cfg) w0))
     = false.
Proof.
  assert (F : fires quote200 rule200 = true) by reflexivity.
  destruct (notify_then_deactivate env0 quote200 (Some email_cfg) (Some telegram_cfg)
              w0 rule200 F) as (T & Em & Tg & _ & _ & D).
  split.
  - rewrite T, (Tg _ _ _ eq_refl eq_refl), (Em _ _ _ eq_refl eq_refl). reflexivity.
  - apply D. left. reflexivity.
Defined.

(** C3.  In every world reached from the fresh database, a rule that
    exists and is not active is not active after any further commands, run
    in any environment; [deactivate_alert] and a firing [check_alerts] lead
    to such a state, so [get_active_alerts] never lists the rule again. *)
Theorem fired_rule_never_active_again :
  forall (env env' : Env) (cs cs' : list command) (i : Z),
    let w := run env cs initial in
    In i (alert_ids w) ->
    (~ In i (active_ids w) -> ~ In i (active_ids (run env' cs' w)))
    /\ ~ In i (active_ids (run env' cs' (deactivate_alert i w)))
    /\ (forall q ec tc a,
          In a (get_active_alerts (db w)) -> a_id a = i -> fires q a = true ->
          ~ In i (active_ids (run env' cs' (check_alerts env q ec tc w)))).
Proof.
  intros env env' cs cs' i w Hi.
  assert (Hb : ids_bounded (db w)) by apply ids_bounded_run, ids_bounded_initial.
  assert (R : forall w', shrinks w w' -> is_active_id i (db w') = false ->
                         ~ In i (active_ids (run env' cs' w'))).
  { intros w' S N. rewrite active_ids_iff.
    assert (Rt : retired i w').
    { destruct S as (A & B & C). unfold retired. rewrite ids_bounded_alt, A, B.
      rewrite <- ids_bounded_alt. auto. }
    destruct (retired_run env' i cs' w' Rt) as (_ & _ & X). rewrite X. discriminate. }
  split; [|split].
  - intros N. apply R; [apply shrinks_refl|].
    rewrite active_ids_iff in N. destruct (is_active_id i (db w)); congruence.
  - apply R; [apply shrinks_deactivate|].
    unfold deactivate_alert. cbn [db]. rewrite is_active_id_update, Z.eqb_refl. reflexivity.
  - intros q ec tc a Ha <- F. apply R; [apply shrinks_check_alerts|].
    rewrite check_alerts_active.
    assert (X : existsb (fun b => (a_id b =? a_id a) && fires q b)
                        (get_active_alerts (db w)) = true).
    { apply existsb_exists. exists a. rewrite Z.eqb_refl, F. auto. }
    rewrite X. apply andb_false_r.
Qed.

Lemma fired_rule_never_active_again_witness :
  ~ In 1 (active_ids
            (run env0 [CreateAlert "aapl" "above" 200 None None t2;
                       Cycle 2 (Some email_cfg) (Some telegram_cfg)]
                 (check_alerts env0 quote200 None None w0))).
Proof.
  assert (Hi : In 1 (alert_ids w0)) by (left; reflexivity).
  destruct (fired_rule_never_active_again env0 env0
              [AddToWatchlist "zzzz" t0; AddToWatchlist "aapl" t0;
               CreateAlert "aapl" "above" 200 (Some "user@example.com")
                           (Some "123456789") t0]
              [CreateAlert "aapl" "above" 200 None None t2;
               Cycle 2 (Some email_cfg) (Some telegram_cfg)] 1 Hi) as (_ & _ & H).
  apply (H quote200 None None rule200); [left; reflexivity | reflexivity | reflexivity].
Defined.

(** C7.  [deactivate_alert] is idempotent: a second call leaves the
    database as the first call left it, with the rule inactive; on a rule
    that is already inactive (or absent) the call changes no row.  The
    method is total: it has no failing outcome. *)
Theorem deactivate_alert_idempotent :
  forall (i : Z) (w : World),
    db (deactivate_alert i (deactivate_alert i w)) = db (deactivate_alert i w)
    /\ is_active_id i (db (deactivate_alert i w)) = false
    /\ ~ In i (active_ids (deactivate_alert i (deactivate_alert i w)))
    /\ (is_active_id i (db w) = false -> db (deactivate_alert i w) = db w).
Proof.
  intros i w. unfold deactivate_alert. cbn [db].
  split; [|split; [|split]].
  - apply update_inactive_idem.
  - rewrite is_active_id_update, Z.eqb_refl. reflexivity.
  - rewrite active_ids_iff. cbn [db].
    rewrite !is_active_id_update, Z.eqb_refl. discriminate.
  - intros N. destruct (db w) as [st sq al aq wl wq]. unfold update_inactive. cbn.
    f_equal. unfold is_active_id in N. cbn in N.
    induction al as [|a al IH]; cbn; [reflexivity|].
    cbn in N. apply orb_false_iff in N. destruct N as [Na Nl].
    rewrite (IH Nl). f_equal.
    destruct (a_id a =? i); [|reflexivity].
    cbn in Na. destruct a. cbn in *. subst. reflexivity.
Qed.

Lemma deactivate_alert_idempotent_witness :
  db (deactivate_alert 1 (deactivate_alert 1 w0)) = db (deactivate_alert 1 w0)
  /\ db (deactivate_alert 7 w0) = db w0.
Proof.
  split.
  - apply (deactivate_alert_idempotent 1 w0).
  - apply (deactivate_alert_idempotent 7 w0). reflexivity.
Defined.

(** ** The tracking loop (C4) *)

(** C4.  In any cycle, a symbol whose fetch gives [None] (the provider had
    no price, or the fetch raised and the handler returned [None]) leaves
    the world as it was: no sample stored, no rule evaluated, nothing sent;
    the symbols after it in the watchlist are processed as if it were not
    there; the loop goes on to the next cycle as long as the flag is set;
    and a bounded observation of the loop ends either because the flag was
    read false (after it was read true at every earlier iteration) or with
    the loop still running. *)
Theorem unavailable_symbol_is_skipped :
  forall (env : Env) (ec : option EmailConfig) (tc : option TelegramConfig)
         (n : nat) (w : World) (symbol : string),
    get_stock_data (yf_Ticker env n symbol) (datetime_now env n symbol) symbol = None ->
    track_symbol env n ec tc w symbol = w
    /\ (forall before after w1,
          fold_left (track_symbol env n ec tc) (before ++ symbol :: after) w1
          = fold_left (track_symbol env n ec tc) after
              (fold_left (track_symbol env n ec tc) before w1))
    /\ (forall before after,
          get_watchlist (db w) = before ++ symbol :: after ->
          cycle env n ec tc w
          = fold_left (track_symbol env n ec tc) after
              (fold_left (track_symbol env n ec tc) before w))
    /\ (forall fuel,
          tracking_active env n = true ->
          track env ec tc (S fuel) n w
          = track env ec tc fuel (S n) (cycle env n ec tc w))
    /\ (forall fuel k w',
          track env ec tc fuel n w = Stopped k w' ->
          tracking_active env k = false
          /\ forall j, (n <= j < k)%nat -> tracking_active env j = true)
    /\ (forall fuel,
          (forall j, (n <= j < n + fuel)%nat -> tracking_active env j = true) ->
          exists w', track env ec tc fuel n w = StillRunning (n + fuel) w').
Proof.
  intros env ec tc n w symbol Hnone.
  assert (Skip : forall w1, track_symbol env n ec tc w1 symbol = w1).
  { intros w1. unfold track_symbol. rewrite Hnone. reflexivity. }
  split; [|split; [|split; [|split; [|split]]]].
  - apply Skip.
  - intros before after w1. rewrite fold_left_app. cbn. rewrite Skip. reflexivity.
  - intros before after E. unfold cycle. rewrite E, fold_left_app. cbn.
    rewrite Skip. reflexivity.
  - intros fuel A. cbn. rewrite A. reflexivity.
  - intros fuel k w'. apply track_stopped.
  - intros fuel. apply track_running.
Qed.

Lemma unavailable_symbol_is_skipped_witness :
  cycle env0 0 (Some email_cfg) (Some telegram_cfg) w0
  = track_symbol env0 0 (Some email_cfg) (Some telegram_cfg) w0 "AAPL"%string
  /\ List.length (stocks (db (cycle env0 0 (Some email_cfg) (Some telegram_cfg) w0))) = 1%nat.
Proof.
  assert (Hnone : get_stock_data (yf_Ticker env0 0 "ZZZZ"%string)
                                 (datetime_now env0 0 "ZZZZ"%string) "ZZZZ"%string = None)
    by reflexivity.
  destruct (unavailable_symbol_is_skipped env0 (Some email_cfg) (Some telegram_cfg)
              0 w0 "ZZZZ"%string Hnone) as (_ & _ & C & _).
  split.
  - rewrite (C [] ["AAPL"%string] eq_refl). reflexivity.
  - rewrite (C [] ["AAPL"%string] eq_refl). reflexivity.
Defined.

(** ** Fetching (C5, C6, C10) *)



Local Open Scope Q_scope.


(** Nor is it that ratio rounded to two decimals: the ratio is taken in
    double arithmetic.  With price 45.75 and previous close 40.00 the
    product is 14.374999999999998 and the quote carries 14.37, while the
    exact ratio, 14.375, rounds to 14.38. *)
Example change_percent_in_doubles :
  exists q,
    get_stock_data (live (4575 # 100) (Some (PyNum 40))) t0 "X"%string = Some q
    /\ q_change q = 575 # 100
    /\ q_change_percent q = 1437 # 100
    /\ round2 (((4575 # 100) - 40) / 40 * 100) = 1438 # 100.
Proof.
  eexists. split; [vm_compute; reflexivity|].
  split; [reflexivity|]. split; reflexivity.
Qed.





(** ** The sample store (C8) *)

(** C8.  [get_historical_data] (and the query it issues, for any symbol and
    cutoff) returns its rows in non-decreasing timestamp order; the rows are
    those of the symbol at or after the cutoff; the read leaves the world
    as it was, so that asking again gives the same sequence, as does asking
    in any world with the same [stocks] table. *)
Theorem history_is_sorted_and_restartable :
  forall (symbol : string) (days : Z) (now : datetime) (w : World),
    StronglySorted (fun r s => dt_le (s_timestamp r) (s_timestamp s))
                   (get_historical_data symbol days now (db w))
    /\ (forall cutoff,
          StronglySorted (fun r s => dt_le (s_timestamp r) (s_timestamp s))
                         (select_stocks symbol cutoff (db w))
          /\ Permutation
               (select_stocks symbol cutoff (db w))
               (filter (fun r => (s_symbol r =? symbol)%string
                                 && dt_leb cutoff (s_timestamp r))
                       (stocks (db w))))
    /\ (let (r1, w1) := query symbol days now w in
        let (r2, w2) := query symbol days now w1 in
        r1 = r2 /\ w1 = w /\ w2 = w)
    /\ (forall w',
          stocks (db w') = stocks (db w) ->
          get_historical_data symbol days now (db w')
          = get_historical_data symbol days now (db w)).
Proof.
  intros symbol days now w. split; [|split; [|split]].
  - apply get_historical_data_sorted.
  - intros cutoff. split; [apply select_stocks_sorted|].
    unfold select_stocks. apply order_by_perm.
  - cbn. auto.
  - intros w' E. rewrite !get_historical_data_eq. unfold select_stocks. rewrite E.
    reflexivity.
Qed.

Lemma history_is_sorted_and_restartable_witness :
  get_historical_data "aapl" 1 t2
    (db (deactivate_alert 1 (cycle env0 0 None None w0)))
  = get_historical_data "aapl" 1 t2 (db (cycle env0 0 None None w0)).
Proof.
  apply (history_is_sorted_and_restartable "aapl" 1 t2 (cycle env0 0 None None w0)).
  reflexivity.
Defined.

(** ** The notification text (C9) *)

Section Lines.

Lemma one_line_app (s t : string) :
  one_line (s ++ t)%string = one_line s && one_line t.
Proof.
  induction s as [|c s IH]; cbn; [reflexivity|]. rewrite IH. apply andb_assoc.
Qed.

Lemma lines_one_line (s : string) : one_line s = true -> lines s = [s].
Proof.
  induction s as [|c s IH]; cbn [one_line lines]; [reflexivity|]. intros H.
  apply andb_true_iff in H. destruct H as [C H].
  apply negb_true_iff in C. rewrite C, (IH H). reflexivity.
Qed.

(** A text without a line break, a line break, and the rest: the text is
    the first line. *)
Lemma lines_cons (s rest : string) :
  one_line s = true -> lines (s ++ nl ++ rest)%string = s :: lines rest.
Proof.
  induction s as [|c s IH]; cbn [one_line lines append]; [reflexivity|]. intros H.
  apply andb_true_iff in H. destruct H as [C H].
  apply negb_true_iff in C. rewrite C, (IH H). reflexivity.
Qed.

Lemma one_line_uint (d : Decimal.uint) : one_line (NilEmpty.string_of_uint d) = true.
Proof. induction d; cbn; auto. Qed.

Lemma one_line_digits (n : Z) : one_line (digits n) = true.
Proof.
  unfold digits, NilZero.string_of_uint.
  destruct (N.to_uint (Z.to_N n)) eqn:E; try reflexivity;
    rewrite <- E; apply one_line_uint.
Qed.

Lemma one_line_zeros (k : nat) : one_line (zeros k) = true.
Proof. induction k; cbn; auto. Qed.

Lemma one_line_zero_pad (w : nat) (s : string) :
  one_line s = true -> one_line (zero_pad w s) = true.
Proof. intros H. unfold zero_pad. rewrite one_line_app, one_line_zeros, H. reflexivity. Qed.

Lemma one_line_substring (s : string) (n m : nat) :
  one_line s = true -> one_line (substring n m s) = true.
Proof.
  revert n m. induction s as [|c s IH]; intros n m H.
  - destruct n, m; reflexivity.
  - cbn in H. apply andb_true_iff in H. destruct H as [C H].
    destruct n as [|n]; cbn.
    + destruct m as [|m]; [reflexivity|]. cbn. rewrite C. apply (IH 0%nat m H).
    + apply (IH n m H).
Qed.

Lemma one_line_format_plus_2f (z : bool) (x : Q) : one_line (format_plus_2f z x) = true.
Proof.
  unfold format_plus_2f. rewrite !one_line_app.
  rewrite one_line_digits, one_line_zero_pad by apply one_line_digits.
  destruct (signbit z x); reflexivity.
Qed.

Lemma one_line_repr_positive (x : Q) : one_line (repr_positive x) = true.
Proof.
  unfold repr_positive.
  destruct (shortest 17 1 (decade x) x) as [n t].
  destruct (strip_zeros 17 n t) as [n' t'].
  repeat match goal with
         | |- context [if ?b then _ else _] => destruct b
         end;
    rewrite ?one_line_app, ?one_line_substring, ?one_line_zero_pad, ?one_line_zeros,
      ?one_line_digits by apply one_line_digits;
    reflexivity.
Qed.

Lemma one_line_str_float (x : Q) : one_line (str_float x) = true.
Proof.
  unfold str_float. destruct (Qeq_bool (fl x) 0); [reflexivity|].
  rewrite one_line_app, one_line_repr_positive.
  destruct (Qle_bool 0 (fl x)); reflexivity.
Qed.

Lemma one_line_str_number (i : bool) (x : Q) : one_line (str_number i x) = true.
Proof.
  unfold str_number, str_int. destruct i; [|apply one_line_str_float].
  rewrite one_line_app, one_line_digits. destruct (Qfloor x <? 0)%Z; reflexivity.
Qed.

Lemma one_line_strftime (t : datetime) : one_line (strftime t) = true.
Proof.
  unfold strftime.
  rewrite !one_line_app, !one_line_zero_pad by apply one_line_digits. reflexivity.
Qed.
End Lines.

Section ReadBack.

Lemma substring_prefix (a b : string) : substring 0 (String.length a) (a ++ b) = a.
Proof. induction a as [|c a IH]; cbn; [destruct b; reflexivity|]. rewrite IH. reflexivity. Qed.

Lemma substring_skip (a b : string) (n m : nat) :
  substring (String.length a + n) m (a ++ b) = substring n m b.
Proof. induction a as [|c a IH]; cbn; [reflexivity|]. exact IH. Qed.

Lemma string_length_app (a b : string) :
  String.length (a ++ b) = (String.length a + String.length b)%nat.
Proof. induction a as [|c a IH]; cbn; [reflexivity|]. rewrite IH. reflexivity. Qed.

Lemma digits_read (i : Z) :
  (0 <= i)%Z ->
  exists u, NilZero.uint_of_string (digits i) = Some u /\ Z.of_N (N.of_uint u) = i.
Proof.
  intros H. unfold digits. exists (N.to_uint (Z.to_N i)). split.
  - apply NilZero.usu. intros E.
    pose proof (DecimalN.Unsigned.of_to (Z.to_N i)) as O. rewrite E in O.
    destruct (Z.to_N i) eqn:Ei; [cbn in E; discriminate|].
    cbn in O. discriminate.
  - rewrite DecimalN.Unsigned.of_to. apply Z2N.id, H.
Qed.

Lemma pad_reads_all : forallb pad_reads (map Z.of_nat (seq 0 100)) = true.
Proof. vm_compute. reflexivity. Qed.

Lemma pad_read (k : Z) :
  (0 <= k < 100)%Z ->
  exists u, NilZero.uint_of_string (zero_pad 2 (digits k)) = Some u
            /\ Z.of_N (N.of_uint u) = k.
Proof.
  intros Hk. pose proof pad_reads_all as H. rewrite forallb_forall in H.
  specialize (H k). unfold pad_reads in H.
  assert (I : In k (map Z.of_nat (seq 0 100))).
  { rewrite <- (Z2Nat.id k) by lia. apply in_map, in_seq. lia. }
  specialize (H I).
  destruct (NilZero.uint_of_string (zero_pad 2 (digits k))) as [u|]; [|discriminate].
  exists u. split; [reflexivity|]. apply Z.eqb_eq, H.
Qed.

Lemma round_half_even_sign (x : Q) :
  (0 <= x -> (0 <= round_half_even x)%Z) /\ (x <= 0 -> (round_half_even x <= 0)%Z).
Proof.
  split; intros H.
  - rewrite <- (round_half_even_Z 0). apply round_half_even_mono. exact H.
  - rewrite <- (round_half_even_Z 0). apply round_half_even_mono. exact H.
Qed.

(** The text of [format(x, '+.2f')] denotes [x] rounded to two decimals. *)
Lemma read_format_plus_2f (z : bool) (x : Q) :
  read_2f (format_plus_2f z x) = Some (round2 x).
Proof.
  unfold format_plus_2f, round2.
  set (r := round_half_even (x * 100)). set (n := Z.abs r).
  destruct (digits_read (n / 100)) as (i & Hi & Vi).
  { apply Z.div_pos; lia. }
  destruct (pad_two_digits (n mod 100)) as (d1 & d2 & E & _ & _).
  { apply Z.mod_pos_bound. lia. }
  destruct (pad_read (n mod 100)) as (f & Hf & Vf).
  { apply Z.mod_pos_bound. lia. }
  rewrite E in *.
  set (D := digits (n / 100)) in *.
  assert (S : (r = if signbit z x then - n else n)%Z).
  { unfold signbit, negative.
    destruct (Qeq_bool x 0) eqn:Z0.
    - apply Qeq_bool_iff in Z0.
      assert (R0 : r = 0%Z).
      { unfold r. rewrite (PyFacts.round_half_even_comp (x * 100) (inject_Z 0)).
        - apply round_half_even_Z.
        - rewrite Z0. reflexivity. }
      unfold n. rewrite R0. destruct z; reflexivity.
    - destruct (Qle_bool 0 x) eqn:L; cbn [negb].
      + apply Qle_bool_iff in L.
        assert ((0 <= r)%Z) by (apply round_half_even_sign; lra). unfold n. lia.
      + assert (L' : x <= 0).
        { apply Qlt_le_weak, Qnot_le_lt. intros C. apply Qle_bool_iff in C. congruence. }
        assert ((r <= 0)%Z) by (apply round_half_even_sign; lra). unfold n. lia. }
  assert (B : forall sign,
             read_2f (String sign (D ++ "." ++ String d1 (String d2 "")))
             = if Ascii.eqb sign "-" then Some ((- n) # 100)
               else if Ascii.eqb sign "+" then Some (n # 100) else None).
  { intros sign. unfold read_2f.
    rewrite string_length_app. cbn [String.length append].
    replace (String.length D + 3 - 3)%nat with (String.length D) by lia.
    replace (String.length D + 3 - 2)%nat with (String.length D + 1)%nat by lia.
    rewrite substring_prefix, Hi.
    rewrite (substring_skip D _ 1 2). cbn [substring]. rewrite Hf.
    rewrite <- (Nat.add_0_r (String.length D)) at 1.
    rewrite (substring_skip D _ 0 1). cbn [substring String.eqb Ascii.eqb Bool.eqb].
    rewrite Vi, Vf.
    replace (100 * (n / 100) + n mod 100)%Z with n by (rewrite <- Z.div_mod; lia).
    reflexivity. }
  destruct (signbit z x); cbn [append]; rewrite B; cbn; rewrite S; reflexivity.
Qed.
End ReadBack.

Section MessageLines.
Variables (a : AlertRow) (q : Quote).
Hypothesis symbol_one_line : one_line (q_symbol q) = true.
Hypothesis kind_one_line : one_line (a_alert_type a) = true.

Lemma one_line_fields :
  one_line banner = true
  /\ one_line ("Symbol: " ++ q_symbol q)%string = true
  /\ one_line ("Current Price: $" ++ str_number (q_price_is_int q) (q_price q))%string = true
  /\ one_line ("Change: " ++ format_plus_2f (q_change_signbit q) (q_change q) ++ " ("
               ++ format_plus_2f (q_change_percent_signbit q) (q_change_percent q)
               ++ "%)")%string = true
  /\ one_line ("Alert Type: " ++ a_alert_type a)%string = true
  /\ one_line ("Threshold: " ++ str_float (a_threshold a))%string = true
  /\ one_line ("Time: " ++ strftime (q_timestamp q))%string = true.
Proof.
  rewrite !one_line_app, !one_line_format_plus_2f, one_line_str_number, one_line_str_float,
    one_line_strftime, symbol_one_line, kind_one_line.
  repeat split; vm_compute; reflexivity.
Qed.

Lemma alert_message_lines :
  lines (alert_message a q)
  = [banner; ""%string;
     ("Symbol: " ++ q_symbol q)%string;
     ("Current Price: $" ++ str_number (q_price_is_int q) (q_price q))%string;
     ("Change: " ++ format_plus_2f (q_change_signbit q) (q_change q) ++ " ("
      ++ format_plus_2f (q_change_percent_signbit q) (q_change_percent q) ++ "%)")%string;
     ("Alert Type: " ++ a_alert_type a)%string;
     ("Threshold: " ++ str_float (a_threshold a))%string;
     ("Time: " ++ strftime (q_timestamp q))%string].
Proof.
  destruct one_line_fields as (L0 & L1 & L2 & L3 & L4 & L5 & L6).
  transitivity
    (lines (banner ++ nl ++ "" ++ nl
            ++ ("Symbol: " ++ q_symbol q) ++ nl
            ++ ("Current Price: $" ++ str_number (q_price_is_int q) (q_price q)) ++ nl
            ++ ("Change: " ++ format_plus_2f (q_change_signbit q) (q_change q) ++ " ("
                ++ format_plus_2f (q_change_percent_signbit q) (q_change_percent q)
                ++ "%)") ++ nl
            ++ ("Alert Type: " ++ a_alert_type a) ++ nl
            ++ ("Threshold: " ++ str_float (a_threshold a)) ++ nl
            ++ ("Time: " ++ strftime (q_timestamp q)))%string).
  - f_equal. unfold alert_message. rewrite !string_app_assoc. reflexivity.
  - rewrite (lines_cons _ _ L0), (lines_cons ""%string _ eq_refl), (lines_cons _ _ L1),
      (lines_cons _ _ L2), (lines_cons _ _ L3), (lines_cons _ _ L4), (lines_cons _ _ L5),
      (lines_one_line _ L6).
    reflexivity.
Qed.
End MessageLines.

Lemma format_plus_2f_zero (z : bool) (x : Q) :
  x == 0 -> format_plus_2f z x = if z then "-0.00"%string else "+0.00"%string.
Proof.
  intros E. unfold format_plus_2f, signbit.
  rewrite (PyFacts.round_half_even_comp (x * 100) (inject_Z 0)) by (rewrite E; reflexivity).
  rewrite round_half_even_Z. apply Qeq_bool_iff in E. rewrite E.
  destruct z; reflexivity.
Qed.




(** * Further properties *)

Import Charts Dashboard Observe.
Local Close Scope Q_scope.

(** ** What each method leaves alone *)

Section Frames.
Variables (env : Env) (q : Quote)
          (ec : option EmailConfig) (tc : option TelegramConfig).

Lemma rest_update_inactive (i : Z) (d : DB) :
  rest_of_db (update_inactive i d) = rest_of_db d.
Proof. reflexivity. Qed.

Lemma rest_check_alert (w : World) (a : AlertRow) :
  rest_of_db (db (check_alert env q ec tc w a)) = rest_of_db (db w).
Proof.
  rewrite check_alert_db. destruct (fires q a); reflexivity.
Qed.

Lemma rest_check_alerts (w : World) :
  rest_of_db (db (check_alerts env q ec tc w)) = rest_of_db (db w).
Proof.
  unfold check_alerts. generalize (get_active_alerts (db w)) as l. intros l.
  revert w. induction l as [|a l IH]; intros w; cbn; [reflexivity|].
  rewrite IH. apply rest_check_alert.
Qed.

Lemma rule_definition_update (i : Z) (d : DB) :
  map rule_definition (alerts (update_inactive i d)) = map rule_definition (alerts d).
Proof.
  unfold update_inactive. cbn. rewrite map_map. apply map_ext.
  intros a. destruct (a_id a =? i); reflexivity.
Qed.

Lemma rule_definition_check_alerts (w : World) :
  map rule_definition (alerts (db (check_alerts env q ec tc w)))
  = map rule_definition (alerts (db w)).
Proof.
  unfold check_alerts. generalize (get_active_alerts (db w)) as l. intros l.
  revert w. induction l as [|a l IH]; intros w; cbn; [reflexivity|].
  rewrite IH, check_alert_db. destruct (fires q a); [|reflexivity].
  apply rule_definition_update.
Qed.
End Frames.

(** ** The watchlist *)

Section Watchlist.

Lemma upper_ascii_idem (c : ascii) : upper_ascii (upper_ascii c) = upper_ascii c.
Proof. destruct c as [[] [] [] [] [] [] [] []]; reflexivity. Qed.

Lemma upper_idem (s : string) : upper (upper s) = upper s.
Proof.
  induction s as [|c s IH]; cbn; [reflexivity|].
  rewrite upper_ascii_idem, IH. reflexivity.
Qed.

Lemma get_watchlist_perm (d : DB) :
  Permutation (get_watchlist d) (map w_symbol (watchlist d)).
Proof. unfold get_watchlist. apply Permutation_map, order_by_perm. Qed.

Lemma in_get_watchlist (t : string) (d : DB) :
  In t (get_watchlist d) <-> In t (map w_symbol (watchlist d)).
Proof.
  split; apply Permutation_in; [|symmetry]; apply get_watchlist_perm.
Qed.

Lemma in_watchlist_iff (t : string) (d : DB) :
  in_watchlist t d = true <-> In t (map w_symbol (watchlist d)).
Proof.
  unfold in_watchlist. rewrite existsb_exists, in_map_iff. split.
  - intros (r & Hr & E). apply String.eqb_eq in E. eauto.
  - intros (r & E & Hr). exists r. split; [exact Hr|]. apply String.eqb_eq, E.
Qed.

Lemma symbols_after_add (s : string) (now : datetime) (d : DB) :
  map w_symbol (watchlist (add_to_watchlist s now d))
  = if in_watchlist (upper s) d then map w_symbol (watchlist d)
    else map w_symbol (watchlist d) ++ [upper s].
Proof.
  unfold add_to_watchlist. destruct (in_watchlist (upper s) d); [reflexivity|].
  cbn. rewrite map_app. reflexivity.
Qed.

Lemma symbols_after_remove (s : string) (d : DB) :
  map w_symbol (watchlist (remove_from_watchlist s d))
  = filter (fun t => negb (t =? upper s)%string) (map w_symbol (watchlist d)).
Proof.
  unfold remove_from_watchlist. cbn.
  induction (watchlist d) as [|r l IH]; cbn; [reflexivity|].
  destruct (w_symbol r =? upper s)%string; cbn; rewrite IH; reflexivity.
Qed.

Lemma added_symbol_listed (s : string) (now : datetime) (d : DB) :
  In (upper s) (get_watchlist (add_to_watchlist s now d)).
Proof.
  rewrite in_get_watchlist, symbols_after_add.
  destruct (in_watchlist (upper s) d) eqn:E.
  - apply in_watchlist_iff, E.
  - apply in_or_app. right. left. reflexivity.
Qed.

Lemma watchlist_ok_add (s : string) (now : datetime) (d : DB) :
  watchlist_ok d -> watchlist_ok (add_to_watchlist s now d).
Proof.
  intros [N U]. unfold watchlist_ok. rewrite symbols_after_add.
  destruct (in_watchlist (upper s) d) eqn:E; [split; assumption|].
  split.
  - apply NoDup_app; [exact N | repeat constructor; intros [] |].
    intros t Ht [<-|[]]. apply in_watchlist_iff in Ht. congruence.
  - apply Forall_app. split; [exact U|]. repeat constructor. apply upper_idem.
Qed.

Lemma watchlist_ok_remove (s : string) (d : DB) :
  watchlist_ok d -> watchlist_ok (remove_from_watchlist s d).
Proof.
  intros [N U]. unfold watchlist_ok. rewrite symbols_after_remove. split.
  - apply NoDup_filter, N.
  - apply Forall_forall. intros t Ht. apply filter_In in Ht.
    rewrite Forall_forall in U. apply U. tauto.
Qed.
End Watchlist.

Section LoopFrames.
Variables (env : Env) (ec : option EmailConfig) (tc : option TelegramConfig).

Lemma watchlist_track_symbol (n : nat) (w : World) (symbol : string) :
  watchlist (db (track_symbol env n ec tc w symbol)) = watchlist (db w).
Proof.
  unfold track_symbol. destruct (get_stock_data _ _ _) as [sd|]; [|reflexivity].
  pose proof (rest_check_alerts env sd ec tc
                (mkWorld (store_stock_data sd (db w)) (trace w))) as R.
  unfold rest_of_db in R. injection R as _ _ _ R _. exact R.
Qed.

Lemma rules_track_symbol (n : nat) (w : World) (symbol : string) :
  map rule_definition (alerts (db (track_symbol env n ec tc w symbol)))
  = map rule_definition (alerts (db w)).
Proof.
  unfold track_symbol. destruct (get_stock_data _ _ _) as [sd|]; [|reflexivity].
  rewrite rule_definition_check_alerts. reflexivity.
Qed.

Lemma fold_track_symbol_frame (n : nat) (l : list string) (w : World) :
  watchlist (db (fold_left (track_symbol env n ec tc) l w)) = watchlist (db w)
  /\ map rule_definition (alerts (db (fold_left (track_symbol env n ec tc) l w)))
     = map rule_definition (alerts (db w)).
Proof.
  revert w. induction l as [|s l IH]; intros w; cbn; [auto|].
  destruct (IH (track_symbol env n ec tc w s)) as [A B].
  rewrite A, B, watchlist_track_symbol, rules_track_symbol. auto.
Qed.

Lemma cycle_frame (n : nat) (w : World) :
  watchlist (db (cycle env n ec tc w)) = watchlist (db w)
  /\ map rule_definition (alerts (db (cycle env n ec tc w)))
     = map rule_definition (alerts (db w)).
Proof. unfold cycle. apply fold_track_symbol_frame. Qed.

Lemma track_frame (fuel n : nat) (w : World) :
  let w' := outcome_world (track env ec tc fuel n w) in
  watchlist (db w') = watchlist (db w)
  /\ map rule_definition (alerts (db w')) = map rule_definition (alerts (db w)).
Proof.
  revert n w. induction fuel as [|fuel IH]; intros n w; cbn; [auto|].
  destruct (tracking_active env n); cbn; [|auto].
  destruct (IH (S n) (cycle env n ec tc w)) as [A B].
  destruct (cycle_frame n w) as [C D].
  cbn in A, B. rewrite A, B, C, D. auto.
Qed.

End LoopFrames.

Section WatchlistCommands.
Variable env : Env.

Lemma watchlist_run_command (w : World) (c : command) :
  watchlist_ok (db w) -> watchlist_ok (db (run_command env w c)).
Proof.
  intros H. destruct c; cbn [run_command db].
  - apply watchlist_ok_add, H.
  - apply watchlist_ok_remove, H.
  - exact H.
  - exact H.
  - exact H.
  - pose proof (rest_check_alerts env stock_data email_config telegram_config w) as R.
    unfold rest_of_db in R. injection R as _ _ _ R _.
    unfold watchlist_ok. rewrite R. exact H.
  - unfold watchlist_ok.
    rewrite (proj1 (cycle_frame env email_config telegram_config cycle_no w)). exact H.
Qed.

Lemma watchlist_ok_run (cs : list command) (w : World) :
  watchlist_ok (db w) -> watchlist_ok (db (run env cs w)).
Proof.
  unfold run. revert w. induction cs as [|c cs IH]; intros w H; cbn; [exact H|].
  apply IH, watchlist_run_command, H.
Qed.
End WatchlistCommands.

Section SortedInput.
Context {A : Type} (leb : A -> A -> bool).

Lemma order_by_sorted_input (l : list A) :
  StronglySorted (fun x y => leb x y = true) l -> order_by leb l = l.
Proof.
  induction 1 as [|x l Hs IH Hx]; cbn; [reflexivity|].
  unfold order_by in IH. rewrite IH.
  destruct l as [|y l]; cbn; [reflexivity|].
  inversion Hx as [|? ? Hxy _]; subst. rewrite Hxy. reflexivity.
Qed.
End SortedInput.

(** X1.  In every world reached from the fresh database the watchlist
    returned by [get_watchlist] holds no symbol twice and only symbols in
    upper case. *)
Theorem watchlist_symbols_unique_upper :
  forall (env : Env) (cs : list command),
    let w := run env cs initial in
    NoDup (get_watchlist (db w))
    /\ Forall (fun t => upper t = t) (get_watchlist (db w)).
Proof.
  intros env cs w.
  assert (H : watchlist_ok (db w)).
  { apply watchlist_ok_run. split; constructor. }
  destruct H as [N U]. split.
  - eapply Permutation_NoDup; [symmetry; apply get_watchlist_perm | exact N].
  - eapply Permutation_Forall; [symmetry; apply get_watchlist_perm | exact U].
Qed.

(** X2.  After [add_to_watchlist] the symbol, in upper case, is on the
    watchlist; after [remove_from_watchlist] it is not, whatever the letter
    case used in either call; and both calls leave every other symbol as it
    was. *)
Theorem watchlist_add_remove :
  forall (s : string) (now : datetime) (d : DB),
    In (upper s) (get_watchlist (add_to_watchlist s now d))
    /\ ~ In (upper s) (get_watchlist (remove_from_watchlist s d))
    /\ (forall s', upper s' = upper s ->
          ~ In (upper s) (get_watchlist (remove_from_watchlist s' (add_to_watchlist s now d))))
    /\ (forall t, t <> upper s ->
          (In t (get_watchlist (add_to_watchlist s now d)) <-> In t (get_watchlist d))
          /\ (In t (get_watchlist (remove_from_watchlist s d)) <-> In t (get_watchlist d))).
Proof.
  intros s now d.
  assert (R : forall s0 d0, ~ In (upper s0) (get_watchlist (remove_from_watchlist s0 d0))).
  { intros s0 d0 H. rewrite in_get_watchlist, symbols_after_remove in H.
    apply filter_In in H. destruct H as [_ H]. rewrite String.eqb_refl in H. discriminate. }
  split; [|split; [|split]].
  - apply added_symbol_listed.
  - apply R.
  - intros s' E. rewrite <- E. apply R.
  - intros t Ht. rewrite !in_get_watchlist, symbols_after_add, symbols_after_remove. split.
    + destruct (in_watchlist (upper s) d); [tauto|].
      rewrite in_app_iff. cbn. intuition congruence.
    + rewrite filter_In. split; [tauto|]. intros H. split; [exact H|].
      destruct (String.eqb_spec t (upper s)); [contradiction|reflexivity].
Qed.

(** X3.  When the rows of the watchlist carry non-decreasing [added_at]
    times in the order they were inserted, [get_watchlist] returns the
    symbols in insertion order, and a symbol added no earlier than all of
    them comes last. *)
Theorem watchlist_insertion_order :
  forall (d : DB),
    StronglySorted (fun r s => dt_le (w_added_at r) (w_added_at s)) (watchlist d) ->
    get_watchlist d = map w_symbol (watchlist d)
    /\ (forall s now,
          in_watchlist (upper s) d = false ->
          Forall (fun r => dt_le (w_added_at r) now) (watchlist d) ->
          get_watchlist (add_to_watchlist s now d) = get_watchlist d ++ [upper s]).
Proof.
  intros d S.
  assert (G : forall d0,
             StronglySorted (fun r s => dt_le (w_added_at r) (w_added_at s)) (watchlist d0) ->
             get_watchlist d0 = map w_symbol (watchlist d0)).
  { intros d0 S0. unfold get_watchlist.
    rewrite (order_by_sorted_input (fun r s => dt_leb (w_added_at r) (w_added_at s)));
      [reflexivity | exact S0]. }
  split; [apply G, S|].
  intros s now E F. rewrite (G d S), G.
  - rewrite symbols_after_add, E. reflexivity.
  - unfold add_to_watchlist. rewrite E. cbn.
    clear E G. induction S as [|r l Hs IH Hr]; cbn.
    + repeat constructor.
    + inversion F as [|? ? Fr Fl]; subst. constructor; [apply IH, Fl|].
      apply Forall_app. split; [exact Hr|]. repeat constructor. exact Fr.
Qed.

Lemma watchlist_insertion_order_witness :
  get_watchlist (db w0) = ["ZZZZ"; "AAPL"]%string
  /\ get_watchlist (add_to_watchlist "msft" t1 (db w0)) = ["ZZZZ"; "AAPL"; "MSFT"]%string.
Proof.
  assert (S : StronglySorted (fun r s => dt_le (w_added_at r) (w_added_at s))
                             (watchlist (db w0))).
  { repeat constructor. }
  destruct (watchlist_insertion_order (db w0) S) as [G A].
  split.
  - rewrite G. reflexivity.
  - rewrite (A "msft"%string t1); [rewrite G; reflexivity | reflexivity |].
    repeat constructor.
Defined.

Lemma watchlist_add_remove_witness :
  ~ In "AAPL"%string
       (get_watchlist (remove_from_watchlist "Aapl" (add_to_watchlist "aapl" t0 (db w0))))
  /\ (In "ZZZZ"%string (get_watchlist (remove_from_watchlist "aapl" (db w0)))
      <-> In "ZZZZ"%string (get_watchlist (db w0))).
Proof.
  destruct (watchlist_add_remove "aapl" t0 (db w0)) as (_ & _ & C & _).
  destruct (watchlist_add_remove "aapl" t0 (db w0)) as (_ & _ & _ & O).
  split.
  - apply (C "Aapl"%string). reflexivity.
  - apply (O "ZZZZ"%string). discriminate.
Defined.

(** ** Alert rules *)

Section RuleIds.
Variable env : Env.

Lemma nodup_ids_shrinks (w w' : World) :
  shrinks w w' -> NoDup (alert_ids w) -> NoDup (alert_ids w').
Proof. intros (A & _ & _). rewrite A. auto. Qed.

Lemma nodup_ids_run_command (w : World) (c : command) :
  ids_bounded (db w) -> NoDup (alert_ids w) -> NoDup (alert_ids (run_command env w c)).
Proof.
  intros Hb N. pose proof (shrinks_watchlist_commands env w c) as Hw.
  destruct c; try (exact (nodup_ids_shrinks _ _ Hw N)); cbn [run_command].
  - unfold alert_ids in *. cbn. rewrite map_app. cbn.
    apply NoDup_app; [exact N | repeat constructor; intros [] |].
    intros i Hi [<-|[]].
    pose proof (proj1 (ids_bounded_alt w) Hb _ Hi). lia.
  - exact (nodup_ids_shrinks _ _ (shrinks_deactivate _ _) N).
  - exact (nodup_ids_shrinks _ _ (shrinks_check_alerts env _ _ _ _) N).
  - exact (nodup_ids_shrinks _ _ (shrinks_cycle env _ _ _ _) N).
Qed.

Lemma nodup_ids_run (cs : list command) (w : World) :
  ids_bounded (db w) -> NoDup (alert_ids w) -> NoDup (alert_ids (run env cs w)).
Proof.
  unfold run. revert w. induction cs as [|c cs IH]; intros w Hb N; cbn; [exact N|].
  apply IH; [apply ids_bounded_run_command, Hb | apply nodup_ids_run_command; assumption].
Qed.

Lemma positive_ids_run (cs : list command) (w : World) :
  0 <= alerts_seq (db w) -> Forall (fun i => 1 <= i) (alert_ids w) ->
  Forall (fun i => 1 <= i) (alert_ids (run env cs w)) /\ 0 <= alerts_seq (db (run env cs w)).
Proof.
  unfold run. revert w. induction cs as [|c cs IH]; intros w Hs F; cbn; [auto|].
  pose proof (shrinks_watchlist_commands env w c) as Hw.
  assert (S : forall w', shrinks w w' ->
                Forall (fun i => 1 <= i) (alert_ids w') /\ 0 <= alerts_seq (db w')).
  { intros w' (A & B & _). rewrite A, B. auto. }
  apply IH; destruct c; cbn [run_command];
    try (apply (S _ Hw)); try (apply S, shrinks_deactivate);
    try (apply S, shrinks_check_alerts); try (apply S, shrinks_cycle).
  - cbn. lia.
  - unfold alert_ids in *. cbn. rewrite map_app. apply Forall_app. split; [exact F|].
    repeat constructor. cbn. lia.
Qed.
End RuleIds.

(** X4.  In every world reached from the fresh database the rule ids are
    pairwise distinct, at least 1 and at most the AUTOINCREMENT counter. *)
Theorem rule_ids_unique :
  forall (env : Env) (cs : list command),
    let w := run env cs initial in
    NoDup (alert_ids w)
    /\ Forall (fun i => 1 <= i <= alerts_seq (db w)) (alert_ids w).
Proof.
  intros env cs w. split.
  - apply nodup_ids_run; [apply ids_bounded_initial | constructor].
  - destruct (positive_ids_run env cs initial) as [P _]; [cbn; lia | constructor |].
    pose proof (proj1 (ids_bounded_alt w)
                  (ids_bounded_run env cs initial ids_bounded_initial)) as B.
    rewrite Forall_forall in *. intros i Hi. split; [apply P, Hi | apply B, Hi].
Qed.

(** X5.  [create_alert] appends one active rule with the next id and the
    symbol in upper case, and keeps the rules that were active; the new rule
    and a quote fetched for the same symbol in any letter case carry the
    same symbol, so that the rule fires on the quote exactly when its
    condition holds. *)
Theorem created_rule_meets_quotes :
  forall (symbol alert_type : string) (threshold : Q) (email chat : option string)
         (t : datetime) (d : DB),
    let a := mkAlertRow (alerts_seq d + 1) (upper symbol) alert_type threshold
                        email chat true t in
    get_active_alerts (create_alert symbol alert_type threshold email chat t d)
    = get_active_alerts d ++ [a]
    /\ (forall tk now symbol' q,
          upper symbol' = upper symbol ->
          get_stock_data tk now symbol' = Some q ->
          a_symbol a = q_symbol q /\ fires q a = triggered a q)
    /\ (forall tk now symbol' q,
          upper symbol' <> upper symbol ->
          get_stock_data tk now symbol' = Some q ->
          fires q a = false).
Proof.
  intros symbol alert_type threshold email chat t d a.
  split; [|split].
  - unfold get_active_alerts, create_alert. cbn. rewrite filter_app. reflexivity.
  - intros tk now symbol' q E H.
    destruct (get_stock_data_inv tk now symbol' q H) as (inf & p & pc & _ & _ & _ & ->).
    unfold fires. cbn. rewrite E, String.eqb_refl. auto.
  - intros tk now symbol' q E H.
    destruct (get_stock_data_inv tk now symbol' q H) as (inf & p & pc & _ & _ & _ & ->).
    unfold fires. cbn.
    destruct (String.eqb_spec (upper symbol) (upper symbol')); [congruence|reflexivity].
Qed.

Lemma created_rule_meets_quotes_witness :
  exists q,
    get_stock_data (live 200 (Some (PyNum 198))) t1 "Aapl"%string = Some q
    /\ fires q (mkAlertRow 1 "AAPL" "above" 200 None None true t0) = true.
Proof.
  eexists. split; [reflexivity|].
  destruct (created_rule_meets_quotes "aapl" "above" 200 None None t0 init_database)
    as (_ & M & _).
  match goal with
  | |- fires ?q _ = true =>
      destruct (M (live 200 (Some (PyNum 198))) t1 "Aapl"%string q eq_refl eq_refl)
        as [_ F]
  end.
  etransitivity; [exact F | reflexivity].
Defined.

(** X6.  [deactivate_alert] changes nothing but the flag of the given rule:
    the other tables, the definitions of all rules and the state of every
    other rule are as before; two deactivations commute. *)
Theorem deactivate_alert_touches_one_rule :
  forall (i : Z) (w : World),
    rest_of_db (db (deactivate_alert i w)) = rest_of_db (db w)
    /\ map rule_definition (alerts (db (deactivate_alert i w)))
       = map rule_definition (alerts (db w))
    /\ (forall j, j <> i ->
          is_active_id j (db (deactivate_alert i w)) = is_active_id j (db w))
    /\ (forall j,
          db (deactivate_alert i (deactivate_alert j w))
          = db (deactivate_alert j (deactivate_alert i w))).
Proof.
  intros i w. unfold deactivate_alert. cbn [db].
  split; [reflexivity|]. split; [apply rule_definition_update|]. split.
  - intros j Hj. rewrite is_active_id_update.
    destruct (Z.eqb_spec j i); [contradiction|reflexivity].
  - intros j. unfold update_inactive. cbn. f_equal. rewrite !map_map.
    apply map_ext. intros a.
    destruct (a_id a =? j) eqn:Ej, (a_id a =? i) eqn:Ei; cbn; rewrite ?Ej, ?Ei; reflexivity.
Qed.

Lemma deactivate_alert_touches_one_rule_witness :
  is_active_id 1 (db (deactivate_alert 2 w0)) = true.
Proof.
  destruct (deactivate_alert_touches_one_rule 2 w0) as (_ & _ & O & _).
  rewrite (O 1); [reflexivity | discriminate].
Defined.

(** ** Alert checks: what changes, and how often *)

Section Counting.
Variables (env : Env) (q : Quote)
          (ec : option EmailConfig) (tc : option TelegramConfig).

Lemma count_app (p : event -> bool) (a b : list event) :
  count p (a ++ b) = (count p a + count p b)%nat.
Proof. unfold count. rewrite filter_app, length_app. reflexivity. Qed.

Lemma deactivations_app (i : Z) (a b : list event) :
  deactivations i (a ++ b) = (deactivations i a + deactivations i b)%nat.
Proof. apply count_app. Qed.

Lemma notify_events_no_deactivate (p : event -> bool) (a : AlertRow) (k : nat) :
  (forall e, is_any_deactivate e = false -> p e = false) ->
  count p (notify_events env a q ec tc k) = 0%nat.
Proof.
  intros Hp. unfold notify_events, email_events, telegram_events, count.
  destruct (a_email a) as [[|c e]|], ec, (a_telegram_chat_id a) as [[|c' t]|], tc;
    cbn; rewrite ?Hp; reflexivity.
Qed.

Lemma notify_events_deactivations (i : Z) (a : AlertRow) (k : nat) :
  deactivations i (notify_events env a q ec tc k) = 0%nat.
Proof.
  apply (notify_events_no_deactivate (is_deactivate i)).
  intros [] H; try reflexivity; discriminate.
Qed.

Lemma notify_events_sends (a : AlertRow) (k : nat) :
  (count is_send_email (notify_events env a q ec tc k) <= 1)%nat
  /\ (count is_send_telegram (notify_events env a q ec tc k) <= 1)%nat
  /\ count is_any_deactivate (notify_events env a q ec tc k) = 0%nat.
Proof.
  unfold notify_events, email_events, telegram_events, count.
  destruct (a_email a) as [[|c e]|], ec, (a_telegram_chat_id a) as [[|c' t]|], tc;
    cbn; repeat split; lia.
Qed.

Lemma deactivations_single (i j : Z) :
  deactivations i [Deactivate j] = if j =? i then 1%nat else 0%nat.
Proof. unfold deactivations. cbn. destruct (j =? i); reflexivity. Qed.

Lemma balance_check_alert (i : Z) (w : World) (a : AlertRow) :
  is_active_id (a_id a) (db w) = true ->
  deactivation_balance i (check_alert env q ec tc w a) = deactivation_balance i w.
Proof.
  intros Ha. unfold deactivation_balance.
  rewrite check_alert_trace, check_alert_db. destruct (fires q a).
  - rewrite !deactivations_app, notify_events_deactivations, is_active_id_update,
      deactivations_single, (Z.eqb_sym i (a_id a)).
    destruct (Z.eqb_spec (a_id a) i) as [E|E]; cbn.
    + subst i. rewrite Ha. lia.
    + lia.
  - rewrite app_nil_r. reflexivity.
Qed.

Lemma balance_fold (i : Z) (l : list AlertRow) (w : World) :
  NoDup (map a_id l) ->
  Forall (fun a => is_active_id (a_id a) (db w) = true) l ->
  deactivation_balance i (fold_left (check_alert env q ec tc) l w)
  = deactivation_balance i w.
Proof.
  revert w. induction l as [|a l IH]; intros w N F; cbn; [reflexivity|].
  inversion N as [|? ? Hn N']; subst. inversion F as [|? ? Fa Fl]; subst.
  rewrite IH; [apply balance_check_alert, Fa | exact N' |].
  rewrite Forall_forall in *. intros b Hb. rewrite check_alert_db.
  destruct (fires q a); [|apply Fl, Hb].
  rewrite is_active_id_update, (Fl b Hb), andb_true_r.
  destruct (Z.eqb_spec (a_id b) (a_id a)) as [E|E]; [|reflexivity].
  exfalso. apply Hn. rewrite <- E. apply in_map, Hb.
Qed.

Lemma active_snapshot_ids_distinct (rows : list AlertRow) :
  NoDup (map a_id rows) -> NoDup (map a_id (filter a_is_active rows)).
Proof.
  induction rows as [|r rows IH]; intros N; cbn; [constructor|].
  apply NoDup_cons_iff in N. destruct N as [Fresh N].
  destruct (a_is_active r); cbn; [|exact (IH N)].
  apply NoDup_cons_iff. split; [|exact (IH N)].
  contradict Fresh. apply in_map_iff in Fresh.
  destruct Fresh as (r' & Same & Kept). apply filter_In in Kept.
  rewrite <- Same. apply in_map. apply Kept.
Qed.

Lemma balance_check_alerts (i : Z) (w : World) :
  NoDup (alert_ids w) ->
  deactivation_balance i (check_alerts env q ec tc w) = deactivation_balance i w.
Proof.
  intros N. unfold check_alerts. apply balance_fold.
  - apply active_snapshot_ids_distinct, N.
  - apply Forall_forall. intros a Ha.
    apply active_ids_iff. unfold active_ids. apply in_map, Ha.
Qed.

Lemma sends_covered_refl (w : World) : sends_covered w w.
Proof. unfold sends_covered. lia. Qed.

Lemma sends_covered_trans (w1 w2 w3 : World) :
  sends_covered w1 w2 -> sends_covered w2 w3 -> sends_covered w1 w3.
Proof. unfold sends_covered. lia. Qed.

Lemma sends_covered_check_alert (w : World) (a : AlertRow) :
  sends_covered w (check_alert env q ec tc w a).
Proof.
  unfold sends_covered. rewrite check_alert_trace. destruct (fires q a).
  - rewrite !count_app.
    destruct (notify_events_sends a (List.length (trace w))) as (E & T & D).
    rewrite D. cbn. lia.
  - rewrite app_nil_r. lia.
Qed.

Lemma sends_covered_fold {A : Type} (f : World -> A -> World) (l : list A) :
  (forall w x, sends_covered w (f w x)) -> forall w, sends_covered w (fold_left f l w).
Proof.
  intros Hf. induction l as [|x l IH]; intros w; cbn; [apply sends_covered_refl|].
  eapply sends_covered_trans; [apply Hf | apply IH].
Qed.

Lemma fold_no_fire (l : list AlertRow) (w : World) :
  (forall a, In a l -> fires q a = false) ->
  fold_left (check_alert env q ec tc) l w = w.
Proof.
  revert w. induction l as [|a l IH]; intros w H; cbn; [reflexivity|].
  rewrite check_alert_fires, (H a (or_introl eq_refl)). apply IH.
  intros b Hb. apply H. right. exact Hb.
Qed.

Lemma fold_trace_grows (l : list AlertRow) (w : World) :
  (List.length (trace w) + (if existsb (fires q) l then 1 else 0)
   <= List.length (trace (fold_left (check_alert env q ec tc) l w)))%nat.
Proof.
  revert w. induction l as [|a l IH]; intros w; cbn; [lia|].
  specialize (IH (check_alert env q ec tc w a)).
  rewrite check_alert_trace in IH. rewrite length_app in IH.
  destruct (fires q a); cbn in *.
  - rewrite length_app in IH. cbn in IH. destruct (existsb (fires q) l); lia.
  - destruct (existsb (fires q) l); lia.
Qed.
End Counting.

(** X7.  [check_alerts] leaves the world exactly as it was if and only if
    no active rule fires on the quote (in particular when there is no
    active rule, or none for the symbol of the quote). *)
Theorem check_alerts_unchanged_iff_none_fires :
  forall (env : Env) (q : Quote) (ec : option EmailConfig) (tc : option TelegramConfig)
         (w : World),
    check_alerts env q ec tc w = w
    <-> (forall a, In a (get_active_alerts (db w)) -> fires q a = false).
Proof.
  intros env q ec tc w. split.
  - intros E a Ha. destruct (fires q a) eqn:F; [|reflexivity].
    pose proof (fold_trace_grows env q ec tc (get_active_alerts (db w)) w) as G.
    fold (check_alerts env q ec tc w) in G. rewrite E in G.
    assert (X : existsb (fires q) (get_active_alerts (db w)) = true)
      by (apply existsb_exists; eauto).
    rewrite X in G. lia.
  - intros H. apply fold_no_fire, H.
Qed.

Lemma check_alerts_unchanged_iff_none_fires_witness :
  check_alerts env0 (mkQuote "AAPL" (19999 # 100) (199 # 100) (101 # 100)
                             (PyNum 0) PyNone PyNone t0 false false false)
               (Some email_cfg) (Some telegram_cfg) w0
  = w0.
Proof.
  apply (proj2 (check_alerts_unchanged_iff_none_fires
                  env0 (mkQuote "AAPL" (19999 # 100) (199 # 100) (101 # 100)
                                (PyNum 0) PyNone PyNone t0 false false false)
                  (Some email_cfg) (Some telegram_cfg) w0)).
  intros a [<-|[]]. reflexivity.
Defined.

Section LoopCounting.
Variables (env : Env) (ec : option EmailConfig) (tc : option TelegramConfig).

Lemma alert_ids_rule_definition (w w' : World) :
  map rule_definition (alerts (db w')) = map rule_definition (alerts (db w)) ->
  alert_ids w' = alert_ids w.
Proof.
  unfold alert_ids. intros E.
  assert (F : forall l, map a_id l = map (fun r => fst (fst (fst (fst (fst (fst r))))))
                                         (map rule_definition l)).
  { intros l. rewrite map_map. reflexivity. }
  rewrite !F, E. reflexivity.
Qed.

Lemma balance_track_symbol (i : Z) (n : nat) (w : World) (symbol : string) :
  NoDup (alert_ids w) ->
  deactivation_balance i (track_symbol env n ec tc w symbol) = deactivation_balance i w.
Proof.
  intros N. unfold track_symbol. destruct (get_stock_data _ _ _) as [sd|]; [|reflexivity].
  rewrite balance_check_alerts; [reflexivity | exact N].
Qed.

Lemma balance_fold_track_symbol (i : Z) (n : nat) (l : list string) (w : World) :
  NoDup (alert_ids w) ->
  deactivation_balance i (fold_left (track_symbol env n ec tc) l w)
  = deactivation_balance i w.
Proof.
  revert w. induction l as [|s l IH]; intros w N; cbn; [reflexivity|].
  rewrite IH; [apply balance_track_symbol, N|].
  rewrite (alert_ids_rule_definition w); [exact N | apply rules_track_symbol].
Qed.

Lemma balance_track (i : Z) (fuel n : nat) (w : World) :
  NoDup (alert_ids w) ->
  deactivation_balance i (outcome_world (track env ec tc fuel n w))
  = deactivation_balance i w.
Proof.
  revert n w. induction fuel as [|fuel IH]; intros n w N; cbn; [reflexivity|].
  destruct (tracking_active env n); cbn; [|reflexivity].
  rewrite IH.
  - apply balance_fold_track_symbol, N.
  - rewrite (alert_ids_rule_definition w); [exact N | apply cycle_frame].
Qed.

Lemma sends_covered_track_symbol (n : nat) (w : World) (symbol : string) :
  sends_covered w (track_symbol env n ec tc w symbol).
Proof.
  unfold track_symbol. destruct (get_stock_data _ _ _) as [sd|];
    [|apply sends_covered_refl].
  unfold check_alerts.
  apply (sends_covered_fold (check_alert env sd ec tc) _
           (sends_covered_check_alert env sd ec tc)
           (mkWorld (store_stock_data sd (db w)) (trace w))).
Qed.

Lemma sends_covered_track (fuel n : nat) (w : World) :
  sends_covered w (outcome_world (track env ec tc fuel n w)).
Proof.
  revert n w. induction fuel as [|fuel IH]; intros n w; cbn; [apply sends_covered_refl|].
  destruct (tracking_active env n); cbn; [|apply sends_covered_refl].
  eapply sends_covered_trans; [|apply IH].
  unfold cycle. apply sends_covered_fold. intros. apply sends_covered_track_symbol.
Qed.

Lemma stocks_track_symbol (n : nat) (w : World) (symbol : string) :
  let w' := track_symbol env n ec tc w symbol in
  match get_stock_data (yf_Ticker env n symbol) (datetime_now env n symbol) symbol with
  | Some sd =>
      exists r, stocks (db w') = stocks (db w) ++ [r]
                /\ sample_of_row r = sample_of_quote sd
                /\ s_id r = stocks_seq (db w) + 1
                /\ stocks_seq (db w') = stocks_seq (db w) + 1
  | None => w' = w
  end.
Proof.
  unfold track_symbol. destruct (get_stock_data _ _ _) as [sd|]; cbv zeta; [|reflexivity].
  pose proof (rest_check_alerts env sd ec tc
                (mkWorld (store_stock_data sd (db w)) (trace w))) as R.
  unfold rest_of_db in R. injection R as R1 R2 _ _ _. rewrite R1, R2.
  unfold store_stock_data. cbn.
  eexists. split; [reflexivity|]. cbn. auto.
Qed.

Lemma stocks_fold_track_symbol (n : nat) (l : list string) (w : World) :
  exists rows,
    stocks (db (fold_left (track_symbol env n ec tc) l w)) = stocks (db w) ++ rows
    /\ map sample_of_row rows = map sample_of_quote (portfolio_data env n l)
    /\ map s_id rows
       = map (fun k => stocks_seq (db w) + 1 + Z.of_nat k) (seq 0 (List.length rows))
    /\ stocks_seq (db (fold_left (track_symbol env n ec tc) l w))
       = stocks_seq (db w) + Z.of_nat (List.length rows).
Proof.
  revert w. induction l as [|s l IH]; intros w; cbn.
  - exists []. cbn. rewrite app_nil_r, Z.add_0_r. auto.
  - pose proof (stocks_track_symbol n w s) as T. cbn in T.
    destruct (IH (track_symbol env n ec tc w s)) as (rows & A & B & C & D).
    destruct (get_stock_data (yf_Ticker env n s) (datetime_now env n s) s) as [sd|].
    + destruct T as (r & T1 & T2 & T3 & T4).
      exists (r :: rows). rewrite A, T1, <- app_assoc. cbn.
      split; [reflexivity|]. split; [rewrite T2, B; reflexivity|]. split.
      * rewrite T3, Z.add_0_r. f_equal. rewrite C, T4, <- seq_shift, map_map.
        apply map_ext. intros k. lia.
      * rewrite D, T4. lia.
    + rewrite T in *. exists rows. auto.
Qed.
End LoopCounting.

Section TransportIndependence.
Variables (env env' : Env) (ec ec' : option EmailConfig) (tc tc' : option TelegramConfig).
Hypothesis market : same_market env env'.

Lemma db_check_alerts_indep (q : Quote) (w w' : World) :
  db w = db w' ->
  db (check_alerts env q ec tc w) = db (check_alerts env' q ec' tc' w').
Proof.
  intros E. unfold check_alerts. rewrite !fold_check_alert_db, E. reflexivity.
Qed.

Lemma db_track_symbol_indep (n : nat) (symbol : string) (w w' : World) :
  db w = db w' ->
  db (track_symbol env n ec tc w symbol) = db (track_symbol env' n ec' tc' w' symbol).
Proof.
  intros E. unfold track_symbol.
  destruct market as (Y & C & _). rewrite (Y n symbol), (C n symbol).
  destruct (get_stock_data _ _ _) as [sd|]; [|exact E].
  apply db_check_alerts_indep. cbn. rewrite E. reflexivity.
Qed.

Lemma db_cycle_indep (n : nat) (w w' : World) :
  db w = db w' -> db (cycle env n ec tc w) = db (cycle env' n ec' tc' w').
Proof.
  intros E. unfold cycle. rewrite E.
  generalize (get_watchlist (db w')) as l. intros l. revert w w' E.
  induction l as [|s l IH]; intros w w' E; cbn; [exact E|].
  apply IH, db_track_symbol_indep, E.
Qed.

Lemma track_indep (fuel n : nat) (w w' : World) :
  db w = db w' ->
  let o := track env ec tc fuel n w in
  let o' := track env' ec' tc' fuel n w' in
  db (outcome_world o) = db (outcome_world o')
  /\ outcome_cycles o = outcome_cycles o'
  /\ outcome_stopped o = outcome_stopped o'.
Proof.
  revert n w w'. induction fuel as [|fuel IH]; intros n w w' E; cbn; [auto|].
  destruct market as (_ & _ & A). rewrite (A n).
  destruct (tracking_active env' n); cbn; [|auto].
  apply IH, db_cycle_indep, E.
Qed.
End TransportIndependence.

(** X8.  What the tracking loop leaves in the database, how many cycles it
    runs and whether it stops do not depend on the transport settings, on
    the outcome of any transport call, or on the events recorded before:
    two runs that see the same provider answers, clock and stop flag and
    start from the same database end with the same database. *)
Theorem stored_state_independent_of_transports :
  forall (env env' : Env) (ec ec' : option EmailConfig) (tc tc' : option TelegramConfig)
         (fuel n : nat) (w w' : World),
    same_market env env' ->
    db w = db w' ->
    let o := track env ec tc fuel n w in
    let o' := track env' ec' tc' fuel n w' in
    db (outcome_world o) = db (outcome_world o')
    /\ outcome_cycles o = outcome_cycles o'
    /\ outcome_stopped o = outcome_stopped o'.
Proof. intros. apply track_indep; assumption. Qed.

Lemma stored_state_independent_of_transports_witness :
  db (outcome_world (track env0 (Some email_cfg) (Some telegram_cfg) 5 0 w0))
  = db (outcome_world
          (track (mkEnv (yf_Ticker env0) (datetime_now env0) (fun _ => true)
                        (tracking_active env0))
                 None None 5 0 w0)).
Proof.
  apply (stored_state_independent_of_transports
           env0 (mkEnv (yf_Ticker env0) (datetime_now env0) (fun _ => true)
                       (tracking_active env0))
           (Some email_cfg) None (Some telegram_cfg) None 5 0 w0 w0).
  - repeat split.
  - reflexivity.
Defined.

Lemma shrinks_track (env : Env) (ec : option EmailConfig) (tc : option TelegramConfig)
    (fuel n : nat) (w : World) :
  shrinks w (outcome_world (track env ec tc fuel n w)).
Proof.
  revert n w. induction fuel as [|fuel IH]; intros n w; cbn; [apply shrinks_refl|].
  destruct (tracking_active env n); cbn; [|apply shrinks_refl].
  eapply shrinks_trans; [apply shrinks_cycle | apply IH].
Qed.

(** X9.  While the rule ids are distinct, the tracking loop deactivates a
    rule at most once: the number of deactivations of a rule plus one while
    it is active stays the same through any number of cycles, so a rule
    that is inactive at the start is not deactivated at all. *)
Theorem loop_deactivates_each_rule_at_most_once :
  forall (env : Env) (ec : option EmailConfig) (tc : option TelegramConfig)
         (fuel n : nat) (w : World) (i : Z),
    NoDup (alert_ids w) ->
    let w' := outcome_world (track env ec tc fuel n w) in
    deactivation_balance i w' = deactivation_balance i w
    /\ (deactivations i (trace w') <= deactivations i (trace w) + 1)%nat
    /\ (is_active_id i (db w) = false ->
          deactivations i (trace w') = deactivations i (trace w))
    /\ (is_active_id i (db w) = true -> is_active_id i (db w') = false ->
          deactivations i (trace w') = (deactivations i (trace w) + 1)%nat).
Proof.
  intros env ec tc fuel n w i N w'.
  pose proof (balance_track env ec tc i fuel n w N) as B. fold w' in B.
  destruct (shrinks_track env ec tc fuel n w) as (_ & _ & S). fold w' in S.
  specialize (S i).
  split; [exact B|]. unfold deactivation_balance in B.
  destruct (is_active_id i (db w)), (is_active_id i (db w'));
    try (discriminate (S eq_refl));
    (split; [lia|]; split; intros; try discriminate; lia).
Qed.

Lemma loop_deactivates_each_rule_at_most_once_witness :
  deactivations 1
    (trace (outcome_world (track env0 (Some email_cfg) (Some telegram_cfg) 5 0 w0)))
  = 1%nat.
Proof.
  assert (N : NoDup (alert_ids w0)) by (repeat constructor; intros []).
  destruct (loop_deactivates_each_rule_at_most_once
              env0 (Some email_cfg) (Some telegram_cfg) 5 0 w0 1 N) as (_ & _ & _ & H).
  rewrite H; reflexivity.
Defined.

(** X10.  Over any number of cycles the loop makes at most one email call
    and at most one Telegram call per deactivation it performs. *)
Theorem loop_sends_at_most_once_per_deactivation :
  forall (env : Env) (ec : option EmailConfig) (tc : option TelegramConfig)
         (fuel n : nat) (w : World),
    let w' := outcome_world (track env ec tc fuel n w) in
    (count is_send_email (trace w') + count is_any_deactivate (trace w)
     <= count is_send_email (trace w) + count is_any_deactivate (trace w'))%nat
    /\ (count is_send_telegram (trace w') + count is_any_deactivate (trace w)
        <= count is_send_telegram (trace w) + count is_any_deactivate (trace w'))%nat.
Proof. intros. apply sends_covered_track. Qed.

(** X11.  The tracking loop never changes the watchlist and never changes a
    rule except for its active flag; to the samples it only appends. *)
Theorem loop_only_appends_samples :
  forall (env : Env) (ec : option EmailConfig) (tc : option TelegramConfig)
         (fuel n : nat) (w : World),
    let w' := outcome_world (track env ec tc fuel n w) in
    watchlist (db w') = watchlist (db w)
    /\ map rule_definition (alerts (db w')) = map rule_definition (alerts (db w))
    /\ exists rows, stocks (db w') = stocks (db w) ++ rows.
Proof.
  intros env ec tc fuel n w w'.
  destruct (track_frame env ec tc fuel n w) as [A B].
  split; [exact A|]. split; [exact B|].
  unfold w'. clear. revert n w. induction fuel as [|fuel IH]; intros n w; cbn.
  - exists []. rewrite app_nil_r. reflexivity.
  - destruct (tracking_active env n); cbn.
    + destruct (IH (S n) (cycle env n ec tc w)) as [rows E].
      destruct (stocks_fold_track_symbol env ec tc n (get_watchlist (db w)) w)
        as (rows' & E' & _).
      fold (cycle env n ec tc w) in E'. rewrite E, E', <- app_assoc. eauto.
    + exists []. rewrite app_nil_r. reflexivity.
Qed.

(** X12.  One cycle appends one sample for each watchlist symbol whose
    fetch succeeds, in watchlist order, carrying the symbol, price,
    change_percent, volume and timestamp of the fetched quote, with
    consecutive row ids; symbols whose fetch fails add no row. *)
Theorem cycle_stores_one_sample_per_quote :
  forall (env : Env) (ec : option EmailConfig) (tc : option TelegramConfig)
         (n : nat) (w : World),
    exists rows,
      stocks (db (cycle env n ec tc w)) = stocks (db w) ++ rows
      /\ map sample_of_row rows
         = map sample_of_quote (portfolio_data env n (get_watchlist (db w)))
      /\ map s_id rows
         = map (fun k => stocks_seq (db w) + 1 + Z.of_nat k) (seq 0 (List.length rows))
      /\ (List.length rows <= List.length (get_watchlist (db w)))%nat.
Proof.
  intros env ec tc n w.
  destruct (stocks_fold_track_symbol env ec tc n (get_watchlist (db w)) w)
    as (rows & A & B & C & _).
  exists rows. fold (cycle env n ec tc w) in A. repeat split; try assumption.
  rewrite <- (length_map sample_of_row), B, length_map.
  clear. induction (get_watchlist (db w)) as [|s l IH]; cbn; [lia|].
  destruct (get_stock_data _ _ _); cbn; lia.
Qed.

(** X13.  No command of the tracker removes or alters a stored sample: after
    any sequence of commands the [stocks] table is the old table followed by
    new rows. *)
Theorem samples_are_append_only :
  forall (env : Env) (cs : list command) (w : World),
    exists rows, stocks (db (run env cs w)) = stocks (db w) ++ rows.
Proof.
  intros env cs. unfold run. induction cs as [|c cs IH]; intros w; cbn.
  - exists []. rewrite app_nil_r. reflexivity.
  - destruct (IH (run_command env w c)) as [rows E]. rewrite E.
    assert (S : exists rows', stocks (db (run_command env w c)) = stocks (db w) ++ rows').
    { destruct c; cbn [run_command db].
      - exists []. rewrite app_nil_r. unfold add_to_watchlist.
        destruct (in_watchlist _ _); reflexivity.
      - exists []. rewrite app_nil_r. reflexivity.
      - eexists. reflexivity.
      - exists []. rewrite app_nil_r. reflexivity.
      - exists []. rewrite app_nil_r. reflexivity.
      - exists []. rewrite app_nil_r.
        pose proof (rest_check_alerts env stock_data email_config telegram_config w) as R.
        unfold rest_of_db in R. injection R as R _ _ _ _. exact R.
      - destruct (stocks_fold_track_symbol env email_config telegram_config cycle_no
                    (get_watchlist (db w)) w) as (rows' & E' & _).
        exists rows'. exact E'. }
    destruct S as [rows' E']. rewrite E', <- app_assoc. eauto.
Qed.

(** ** Fetching: edge cases *)

Local Open Scope Q_scope.

(** X14.  When the provider's [info] has the entry [previousClose] with
    value [None], [get_stock_data] returns [None], whatever price the
    provider has: the subtraction raises and the handler swallows it. *)
Theorem null_previous_close_fails_fetch :
  forall (tk : Ticker) (now : datetime) (symbol : string) (inf : Info),
    info tk = inr inf ->
    previousClose inf = Some PyNone ->
    get_stock_data tk now symbol = None.
Proof.
  intros tk now symbol inf Hi Hp.
  destruct (resolve_price tk inf) as [e|[p|]] eqn:Hr.
  - unfold get_stock_data, get_stock_data_exc, get_stock_data_try.
    rewrite Hi. cbn. rewrite Hr. reflexivity.
  - rewrite (get_stock_data_resolved tk now symbol inf p Hi Hr), Hp. reflexivity.
  - apply (get_stock_data_unresolved tk now symbol inf Hi Hr).
Qed.

Lemma null_previous_close_fails_fetch_witness :
  get_stock_data (live 200 (Some PyNone)) t0 "AAPL"%string = None.
Proof.
  apply (null_previous_close_fails_fetch (live 200 (Some PyNone)) t0 "AAPL"%string
           (mkInfo (Some (PyNum 200)) None (Some PyNone) None None None));
    reflexivity.
Defined.

(** X15.  When the provider has a live price, the intraday history is not
    consulted: the result of [get_stock_data] is the same whatever the
    history holds, and also when reading the history would fail. *)
Theorem live_price_ignores_history :
  forall (inf : Info) (h h' : M (list Q)) (now : datetime) (symbol : string) (p : Q),
    live_price inf = Some p ->
    get_stock_data (mkTicker (inr inf) h) now symbol
    = get_stock_data (mkTicker (inr inf) h') now symbol.
Proof.
  intros inf h h' now symbol p L.
  rewrite (get_stock_data_resolved (mkTicker (inr inf) h) now symbol inf p eq_refl
             (resolve_live _ inf p L)).
  rewrite (get_stock_data_resolved (mkTicker (inr inf) h') now symbol inf p eq_refl
             (resolve_live _ inf p L)).
  reflexivity.
Qed.

Lemma live_price_ignores_history_witness :
  get_stock_data (mkTicker (inr (mkInfo (Some (PyNum 200)) None None None None None))
                           (inl ProviderError)) t0 "AAPL"%string
  = get_stock_data (live 200 None) t0 "AAPL"%string.
Proof.
  apply (live_price_ignores_history _ _ _ t0 "AAPL"%string 200). reflexivity.
Defined.

(** X16.  Rounding the price does not lose an alert whose threshold is a
    whole number of cents: when the resolved price is at or above (at or
    below) such a threshold, the [above] ([below]) rule of the symbol fires.
    For any threshold, a rule that fires was met by the resolved price
    within half a cent. *)
Theorem cent_threshold_alerts_not_lost :
  forall (tk : Ticker) (now : datetime) (symbol : string) (inf : Info) (p : Q)
         (q : Quote) (a : AlertRow),
    info tk = inr inf ->
    resolve_price tk inf = inr (Some p) ->
    get_stock_data tk now symbol = Some q ->
    a_symbol a = q_symbol q ->
    (forall n : Z, a_threshold a == n # 100 ->
       (a_alert_type a = "above"%string -> a_threshold a <= p -> fires q a = true)
       /\ (a_alert_type a = "below"%string -> p <= a_threshold a -> fires q a = true))
    /\ (a_alert_type a = "above"%string -> fires q a = true ->
          a_threshold a - (1 # 200) <= p)
    /\ (a_alert_type a = "below"%string -> fires q a = true ->
          p <= a_threshold a + (1 # 200)).
Proof.
  intros tk now symbol inf p q a Hi Hr Hq Hs.
  assert (Hp : q_price q = round2 p).
  { rewrite (get_stock_data_resolved tk now symbol inf p Hi Hr) in Hq.
    destruct (number (get_default (previousClose inf) (PyNum p))); [|discriminate].
    injection Hq as <-. reflexivity. }
  assert (K : fires q a = triggered a q).
  { unfold fires. rewrite Hs, String.eqb_refl. reflexivity. }
  pose proof (PyFacts.round2_near p) as Near. apply Qabs_Qle_condition in Near.
  rewrite K. split; [|split].
  - intros n Hn. split; intros T L.
    + apply (triggered_above a q T). rewrite Hp, Hn, <- (round2_cents n).
      apply round2_mono. rewrite <- Hn. exact L.
    + apply (triggered_below a q T). rewrite Hp, Hn, <- (round2_cents n).
      apply round2_mono. rewrite <- Hn. exact L.
  - intros T F. apply (triggered_above a q T) in F. rewrite Hp in F. lra.
  - intros T F. apply (triggered_below a q T) in F. rewrite Hp in F. lra.
Qed.

Lemma cent_threshold_alerts_not_lost_witness :
  exists q,
    get_stock_data (live (200004 # 1000) (Some (PyNum 198))) t1 "aapl"%string = Some q
    /\ fires q rule200 = true.
Proof.
  eexists. split; [reflexivity|].
  match goal with
  | |- fires ?q _ = true =>
      destruct (cent_threshold_alerts_not_lost
                  (live (200004 # 1000) (Some (PyNum 198))) t1 "aapl"%string
                  _ (200004 # 1000) q rule200 eq_refl eq_refl eq_refl eq_refl)
        as (C & _ & _)
  end.
  destruct (C 20000%Z) as [A _]; [reflexivity|].
  apply A; [reflexivity | discriminate].
Defined.

(** X17.  For a quote fetched with a positive previous close, [change] and
    [change_percent] never point in opposite directions: both are at least
    zero when the resolved price is at or above the previous close, both at
    most zero when it is at or below. *)
Theorem change_signs_agree :
  forall (tk : Ticker) (now : datetime) (symbol : string) (inf : Info) (p pc : Q)
         (q : Quote),
    info tk = inr inf ->
    resolve_price tk inf = inr (Some p) ->
    previousClose inf = Some (PyNum pc) ->
    0 < pc ->
    get_stock_data tk now symbol = Some q ->
    (pc <= p -> 0 <= q_change q /\ 0 <= q_change_percent q)
    /\ (p <= pc -> q_change q <= 0 /\ q_change_percent q <= 0).
Proof.
  intros tk now symbol inf p pc q Hi Hr Hpc Pos Hq.
  rewrite (get_stock_data_resolved tk now symbol inf p Hi Hr), Hpc in Hq.
  cbn [get_default number] in Hq. injection Hq as <-.
  unfold quote_of. cbn [q_change q_change_percent].
  unfold derived_change_percent, derived_change.
  assert (Z0 : Qeq_bool pc 0 = false).
  { destruct (Qeq_bool pc 0) eqn:E; [|reflexivity].
    apply Qeq_bool_iff in E. rewrite E in Pos. discriminate Pos. }
  rewrite Z0.
  assert (Fpc : 0 <= fl pc) by (apply fl_nonneg; lra).
  assert (Inv : 0 <= / fl pc) by (apply Qinv_le_0_compat, Fpc).
  split; intros L.
  - assert (M : fl pc <= fl p) by (apply fl_mono_pos; assumption).
    assert (C : 0 <= fl (fl p - fl pc)) by (apply fl_nonneg; lra).
    split; [apply round2_nonneg, C|].
    assert (R : 0 <= fl (fl (fl p - fl pc) / fl pc)).
    { apply fl_nonneg. unfold Qdiv. apply Qmult_le_0_compat; assumption. }
    apply round2_nonneg, fl_nonneg. lra.
  - assert (M : fl p <= fl pc).
    { destruct (Qlt_le_dec 0 p) as [Pp|Np].
      - apply fl_mono_pos; assumption.
      - apply Qle_trans with 0; [apply fl_nonpos, Np|exact Fpc]. }
    assert (C : fl (fl p - fl pc) <= 0) by (apply fl_nonpos; lra).
    split; [apply round2_nonpos, C|].
    assert (R : fl (fl (fl p - fl pc) / fl pc) <= 0).
    { apply fl_nonpos. unfold Qdiv.
      assert (0 <= (- fl (fl p - fl pc)) * / fl pc) by (apply Qmult_le_0_compat; lra).
      assert (E : fl (fl p - fl pc) * / fl pc == - ((- fl (fl p - fl pc)) * / fl pc))
        by ring.
      rewrite E. lra. }
    apply round2_nonpos, fl_nonpos. lra.
Qed.

Lemma change_signs_agree_witness :
  exists q,
    get_stock_data (live 1 (Some (PyNum 3))) t0 "X"%string = Some q
    /\ q_change q <= 0 /\ q_change_percent q <= 0.
Proof.
  eexists. split; [vm_compute; reflexivity|].
  match goal with
  | |- q_change ?q <= 0 /\ _ =>
      destruct (change_signs_agree (live 1 (Some (PyNum 3))) t0 "X"%string _ 1 3 q
                  eq_refl eq_refl eq_refl eq_refl eq_refl) as [_ D]
  end.
  apply D. discriminate.
Defined.

(** ** Samples and charts *)

Section History.

Lemma select_stocks_store (symbol : string) (cutoff : datetime) (q : Quote) (d : DB) :
  select_stocks symbol cutoff (store_stock_data q d)
  = order_by (fun r s => dt_leb (s_timestamp r) (s_timestamp s))
      (filter (fun r => (s_symbol r =? symbol)%string && dt_leb cutoff (s_timestamp r))
              (stocks d)
       ++ (if (q_symbol q =? symbol)%string && dt_leb cutoff (q_timestamp q)
           then [mkStockRow (stocks_seq d + 1)%Z (q_symbol q) (q_price q)
                            (q_change_percent q) (q_volume q) (q_timestamp q)]
           else [])).
Proof.
  unfold select_stocks, store_stock_data. cbn [stocks]. rewrite filter_app. cbn.
  destruct ((q_symbol q =? symbol)%string && dt_leb cutoff (q_timestamp q)); reflexivity.
Qed.

Lemma sorted_map_timestamp (l : list StockRow) :
  StronglySorted (fun r s => dt_le (s_timestamp r) (s_timestamp s)) l ->
  StronglySorted dt_le (map s_timestamp l).
Proof.
  induction 1 as [|r l Hs IH Hr]; cbn; constructor; [exact IH|].
  apply Forall_map. exact Hr.
Qed.
End History.

Section TimestampFormats.

Lemma uniform_iff (l : list datetime) :
  uniform l = true
  <-> forall t u, In t l -> In u l -> has_fraction t = has_fraction u.
Proof.
  destruct l as [|t0 l]; [split; [intros _ t u []|reflexivity]|].
  unfold uniform. rewrite forallb_forall. split.
  - intros H t u Ht Hu.
    apply H, eqb_prop in Ht. apply H, eqb_prop in Hu. congruence.
  - intros H u Hu. rewrite (H u t0 Hu (or_introl eq_refl)). apply eqb_reflx.
Qed.

Lemma uniform_perm (l l' : list datetime) :
  Permutation l l' -> uniform l = uniform l'.
Proof.
  intros P.
  assert (K : forall a b, Permutation a b -> uniform a = true -> uniform b = true).
  { intros a b Pab H. apply uniform_iff. intros t u Ht Hu.
    apply (proj1 (uniform_iff a) H);
      eapply Permutation_in; try eassumption; symmetry; exact Pab. }
  destruct (uniform l) eqn:A, (uniform l') eqn:B; try reflexivity.
  - rewrite (K l l' P A) in B. discriminate.
  - rewrite (K l' l (Permutation_sym P) B) in A. discriminate.
Qed.

(** A column and one more timestamp: one format exactly when the column has
    the format of that timestamp throughout. *)
Lemma uniform_cons (t : datetime) (l : list datetime) :
  uniform (t :: l) = forallb (fun u => Bool.eqb (has_fraction u) (has_fraction t)) l.
Proof. unfold uniform. cbn [forallb]. rewrite eqb_reflx. reflexivity. Qed.

Lemma forallb_on_map {A B : Type} (f : B -> bool) (g : A -> B) (l : list A) :
  forallb f (map g l) = forallb (fun x => f (g x)) l.
Proof. induction l as [|x l IH]; cbn; [reflexivity|]. rewrite IH. reflexivity. Qed.
End TimestampFormats.

(** X18.  A stored quote and the history of its symbol, asked for in any
    letter case.  When the cutoff of the window cannot be computed (too many
    days) the history is empty.  Otherwise: for another symbol, or a window
    that starts after the timestamp of the quote, the history is what it was
    before; for a window that reaches back to the timestamp, the history is
    the rows selected before together with the new row when all of them
    have their timestamp texts in the format of the new one, and it is
    empty when one of them has not (the timestamps cannot be parsed). *)
Theorem stored_sample_is_queried :
  forall (q : Quote) (symbol : string) (days : Z) (now : datetime) (d : DB),
    let row := mkStockRow (stocks_seq d + 1)%Z (q_symbol q) (q_price q)
                          (q_change_percent q) (q_volume q) (q_timestamp q) in
    let before := get_historical_data symbol days now d in
    let after := get_historical_data symbol days now (store_stock_data q d) in
    (forall e, minus_days now days = inl e -> after = [])
    /\ (forall cutoff, minus_days now days = inr cutoff ->
          let selected := select_stocks (upper symbol) cutoff d in
          let same_format :=
            forallb (fun r => Bool.eqb (has_fraction (s_timestamp r))
                                       (has_fraction (q_timestamp q))) selected in
          (upper symbol <> q_symbol q \/ dt_leb cutoff (q_timestamp q) = false ->
           after = before)
          /\ (upper symbol = q_symbol q -> dt_le cutoff (q_timestamp q) ->
              (same_format = true ->
                 before = selected /\ Permutation after (row :: before) /\ In row after)
              /\ (same_format = false -> after = []))).
Proof.
  intros q symbol days now d row before after. unfold before, after.
  rewrite !get_historical_data_eq. split.
  - intros e E. rewrite E. reflexivity.
  - intros cutoff E. cbv zeta. rewrite E.
    set (selected := select_stocks (upper symbol) cutoff d).
    set (same_format := forallb _ selected).
    rewrite select_stocks_store. fold row. split.
    + intros H.
      assert (X : (q_symbol q =? upper symbol)%string
                  && dt_leb cutoff (q_timestamp q) = false).
      { destruct H as [H|H]; [|rewrite H; apply andb_false_r].
        destruct (String.eqb_spec (q_symbol q) (upper symbol)); [congruence|reflexivity]. }
      rewrite X, app_nil_r. reflexivity.
    + intros Es T. rewrite <- Es, String.eqb_refl, T. cbn [andb].
      set (f := fun r => (s_symbol r =? upper symbol)%string && dt_leb cutoff (s_timestamp r)).
      set (by_time := fun r s => dt_leb (s_timestamp r) (s_timestamp s)).
      assert (P : Permutation (order_by by_time (filter f (stocks d) ++ [row]))
                              (row :: selected)).
      { rewrite order_by_perm. unfold selected, select_stocks. fold f by_time.
        rewrite order_by_perm. rewrite Permutation_app_comm. reflexivity. }
      rewrite (uniform_perm _ _ (Permutation_map s_timestamp P)).
      cbn [map]. rewrite uniform_cons, forallb_on_map. cbn [s_timestamp row].
      fold same_format. split; intros F; rewrite F.
      * assert (U : uniform (map s_timestamp selected) = true).
        { apply uniform_iff. intros t u Ht Hu.
          apply in_map_iff in Ht. destruct Ht as (r & <- & Hr).
          apply in_map_iff in Hu. destruct Hu as (r' & <- & Hr').
          unfold same_format in F. rewrite forallb_forall in F.
          apply F, eqb_prop in Hr. apply F, eqb_prop in Hr'. congruence. }
        fold selected. rewrite U.
        split; [reflexivity|]. split; [exact P|].
        eapply Permutation_in; [symmetry; exact P | left; reflexivity].
      * reflexivity.
Qed.

(** Found again; lost when stored with a timestamp in the other format;
    lost when the window is too long. *)
Lemma stored_sample_is_queried_witness :
  List.length (get_historical_data "aapl" 1 t2 (store_stock_data quote200 (db w0))) = 1%nat
  /\ get_historical_data "zzzz" 1 t2 (store_stock_data quote200 (db w0))
     = get_historical_data "zzzz" 1 t2 (db w0)
  /\ get_historical_data "aapl" 1 t2
       (store_stock_data
          (mkQuote "AAPL" 201 (5 # 2) (126 # 100) (PyNum 1000) PyNone PyNone
                   (mkDatetime 2024 3 1 9 36 0 250000) false false false)
          (store_stock_data quote200 (db w0)))
     = []
  /\ get_historical_data "aapl" 1000000 t2 (store_stock_data quote200 (db w0)) = [].
Proof.
  destruct (stored_sample_is_queried quote200 "aapl" 1 t2 (db w0)) as [_ A].
  destruct (stored_sample_is_queried quote200 "zzzz" 1 t2 (db w0)) as [_ B].
  destruct (stored_sample_is_queried
              (mkQuote "AAPL" 201 (5 # 2) (126 # 100) (PyNum 1000) PyNone PyNone
                       (mkDatetime 2024 3 1 9 36 0 250000) false false false)
              "aapl" 1 t2 (store_stock_data quote200 (db w0))) as [_ C].
  destruct (stored_sample_is_queried quote200 "aapl" 1000000 t2 (db w0)) as [D _].
  split; [|split; [|split]].
  - destruct (A _ eq_refl) as [_ A']. destruct (A' eq_refl eq_refl) as [A'' _].
    destruct (A'' eq_refl) as (_ & P & _). rewrite (Permutation_length P). reflexivity.
  - destruct (B _ eq_refl) as [B' _]. apply B'. left. discriminate.
  - destruct (C _ eq_refl) as [_ C']. destruct (C' eq_refl eq_refl) as [_ C''].
    apply C''. reflexivity.
  - apply (D OverflowError). reflexivity.
Defined.

Section ChartPoints.

Lemma select_stocks_nil (symbol : string) (cutoff : datetime) (d : DB) :
  select_stocks symbol cutoff d = []
  <-> filter (fun r => (s_symbol r =? symbol)%string && dt_leb cutoff (s_timestamp r))
             (stocks d) = [].
Proof.
  unfold select_stocks. split; intros H.
  - apply Permutation_nil. rewrite <- H. apply order_by_perm.
  - rewrite H. reflexivity.
Qed.

Lemma combine_map3 {A B C D : Type} (f : A -> B) (g : A -> C) (h : A -> D) (l : list A) :
  combine (map f l) (combine (map g l) (map h l)) = map (fun x => (f x, (g x, h x))) l.
Proof. induction l as [|x l IH]; cbn; [reflexivity|]. rewrite IH. reflexivity. Qed.
End ChartPoints.

(** X19.  [create_price_chart] gives no figure exactly when the cutoff of
    the window cannot be computed, or the [stocks] table has no sample of
    the symbol in the window, or the samples in the window have their
    timestamp texts in two formats.  Otherwise the price and the volume
    trace share one time axis in non-decreasing order, and their points are
    the samples of the symbol in the window, one point per sample. *)
Theorem price_chart_follows_history :
  forall (symbol : string) (days : Z) (now : datetime) (d : DB),
    let in_window cutoff :=
      filter (fun r => (s_symbol r =? upper symbol)%string
                       && dt_leb cutoff (s_timestamp r)) (stocks d) in
    (create_price_chart symbol days now d = None
     <-> match minus_days now days with
         | inl _ => True
         | inr cutoff =>
             in_window cutoff = []
             \/ uniform (map s_timestamp (in_window cutoff)) = false
         end)
    /\ (forall c, create_price_chart symbol days now d = Some c ->
          exists cutoff,
            minus_days now days = inr cutoff
            /\ StronglySorted dt_le (price_x c)
            /\ volume_x c = price_x c
            /\ Permutation
                 (combine (price_x c) (combine (price_y c) (volume_y c)))
                 (map (fun r => (s_timestamp r, (s_price r, s_volume r)))
                      (in_window cutoff))
            /\ price_x c <> []).
Proof.
  intros symbol days now d in_window.
  unfold create_price_chart. rewrite get_historical_data_eq.
  destruct (minus_days now days) as [e|cutoff].
  { split; [tauto|]. intros c H. discriminate H. }
  pose proof (select_stocks_sorted (upper symbol) cutoff d) as S.
  pose proof (select_stocks_nil (upper symbol) cutoff d) as N. fold (in_window cutoff) in N.
  assert (P : Permutation (select_stocks (upper symbol) cutoff d) (in_window cutoff))
    by apply order_by_perm.
  rewrite <- (uniform_perm _ _ (Permutation_map s_timestamp P)).
  destruct (uniform (map s_timestamp (select_stocks (upper symbol) cutoff d))) eqn:U.
  - destruct (select_stocks (upper symbol) cutoff d) as [|r l] eqn:E.
    + split; [split; [intros _; left; apply N; reflexivity|reflexivity]|].
      intros c H. discriminate H.
    + split.
      * split; [discriminate|]. intros [H|H]; [|discriminate].
        apply N in H. discriminate H.
      * intros c H. injection H as <-. exists cutoff.
        cbn [price_x price_y volume_x volume_y].
        split; [reflexivity|].
        split; [apply (sorted_map_timestamp (r :: l)), S|].
        split; [reflexivity|].
        split; [|discriminate].
        rewrite <- (Permutation_map _ P), <- combine_map3. reflexivity.
  - split; [split; [intros _; right; reflexivity|reflexivity]|].
    intros c H. discriminate H.
Qed.

(** No sample, one sample, and two samples whose timestamps are stored in
    different formats. *)
Lemma price_chart_follows_history_witness :
  create_price_chart "aapl" 1 t2 (db w0) = None
  /\ (exists c,
        create_price_chart "aapl" 1 t2 (store_stock_data quote200 (db w0)) = Some c
        /\ price_x c = [t1])
  /\ create_price_chart "aapl" 1 t2
       (store_stock_data
          (mkQuote "AAPL" 201 (5 # 2) (126 # 100) (PyNum 1000) PyNone PyNone
                   (mkDatetime 2024 3 1 9 36 0 250000) false false false)
          (store_stock_data quote200 (db w0)))
     = None.
Proof.
  split; [|split].
  - apply (price_chart_follows_history "aapl" 1 t2 (db w0)). vm_compute. left. reflexivity.
  - eexists. split; [vm_compute; reflexivity|].
    match goal with
    | |- price_x ?c = _ =>
        destruct (price_chart_follows_history "aapl" 1 t2
                    (store_stock_data quote200 (db w0))) as [_ H];
        destruct (H c eq_refl) as (cutoff & _ & _ & _ & P & _)
    end.
    reflexivity.
  - apply (price_chart_follows_history "aapl" 1 t2). vm_compute. right. reflexivity.
Defined.

Section Portfolio.
Variables (env : Env) (n : nat).

Lemma portfolio_data_nil (l : list string) :
  portfolio_data env n l = []
  <-> forall symbol, In symbol l ->
        get_stock_data (yf_Ticker env n symbol) (datetime_now env n symbol) symbol = None.
Proof.
  induction l as [|s l IH]; cbn.
  - split; [intros _ ? []|reflexivity].
  - destruct (get_stock_data (yf_Ticker env n s) (datetime_now env n s) s) eqn:E.
    + split; [discriminate|]. intros H. specialize (H s (or_introl eq_refl)). congruence.
    + rewrite IH. split.
      * intros H symbol [<-|Hs]; auto.
      * intros H symbol Hs. apply H. right. exact Hs.
Qed.

Lemma portfolio_data_length (l : list string) :
  (List.length (portfolio_data env n l) <= List.length l)%nat.
Proof.
  induction l as [|s l IH]; cbn; [lia|].
  destruct (get_stock_data _ _ _); cbn; lia.
Qed.

Lemma portfolio_data_symbols (l : list string) :
  forall q, In q (portfolio_data env n l) -> exists s, In s l /\ q_symbol q = upper s.
Proof.
  induction l as [|s l IH]; cbn; [intros ? []|].
  destruct (get_stock_data (yf_Ticker env n s) (datetime_now env n s) s) as [sd|] eqn:E.
  - intros q [<-|Hq].
    + exists s. split; [auto|].
      destruct (get_stock_data_inv _ _ _ _ E) as (? & ? & ? & _ & _ & _ & ->). reflexivity.
    + destruct (IH q Hq) as (s' & Hs & Eq). eauto.
  - intros q Hq. destruct (IH q Hq) as (s' & Hs & Eq). eauto.
Qed.

Lemma market_cap_data_nil (df : list Quote) :
  market_cap_data df = [] <-> Forall (fun q => q_market_cap q = PyNone) df.
Proof.
  induction df as [|q df IH]; cbn [market_cap_data]; [split; auto|].
  destruct (q_market_cap q) eqn:E; cbn [number].
  - rewrite IH. split; [intros H; constructor; assumption|].
    intros H. inversion H; assumption.
  - split; [discriminate|]. intros H. inversion H; congruence.
  - split; [discriminate|]. intros H. inversion H; congruence.
Qed.
End Portfolio.

(** X20.  [create_portfolio_dashboard] gives no figure exactly when no
    watchlist symbol can be fetched (in particular for an empty watchlist).
    Otherwise the price, change and volume bars and the colours have one
    entry per fetched quote, in watchlist order, at most one per watchlist
    symbol; a bar is green exactly when its change_percent is at least
    zero; and the market-cap pie is absent exactly when no fetched quote
    has a market cap. *)
Theorem portfolio_figure_follows_quotes :
  forall (env : Env) (n : nat) (d : DB),
    let df := portfolio_data env n (get_watchlist d) in
    (create_portfolio_dashboard env n d = None
     <-> forall symbol, In symbol (get_watchlist d) ->
           get_stock_data (yf_Ticker env n symbol) (datetime_now env n symbol) symbol = None)
    /\ (forall f, create_portfolio_dashboard env n d = Some f ->
          current_prices f = map (fun q => (q_symbol q, q_price q)) df
          /\ percent_changes f = map (fun q => (q_symbol q, q_change_percent q)) df
          /\ volume_bars f = map (fun q => (q_symbol q, q_volume q)) df
          /\ change_colors f
             = map (fun q => if Qle_bool 0 (q_change_percent q)
                             then "green"%string else "red"%string) df
          /\ (0 < List.length df <= List.length (get_watchlist d))%nat
          /\ (forall q, In q df -> exists s, In s (get_watchlist d) /\ q_symbol q = upper s)
          /\ (market_cap_pie f = None
              <-> Forall (fun q => q_market_cap q = PyNone) df)).
Proof.
  intros env n d df.
  pose proof (portfolio_data_nil env n (get_watchlist d)) as Nil. fold df in Nil.
  pose proof (portfolio_data_length env n (get_watchlist d)) as Len. fold df in Len.
  pose proof (portfolio_data_symbols env n (get_watchlist d)) as Sym. fold df in Sym.
  pose proof (market_cap_data_nil df) as MC.
  unfold create_portfolio_dashboard. fold df.
  remember (market_cap_data df) as mc eqn:Emc. clear Emc.
  destruct (get_watchlist d) as [|s l] eqn:W.
  - split; [split; [intros _ ? []|reflexivity]|]. intros f H. discriminate H.
  - destruct df as [|q0 df'] eqn:D.
    + split; [rewrite <- Nil; tauto|]. intros f H. discriminate H.
    + split.
      * rewrite <- Nil. split; discriminate.
      * intros f H. injection H as <-.
        cbn [current_prices percent_changes volume_bars change_colors market_cap_pie].
        split; [reflexivity|]. split; [reflexivity|]. split; [reflexivity|].
        split; [reflexivity|]. split; [cbn in *; lia|]. split; [exact Sym|].
        rewrite <- MC.
        destruct mc; split; intros X; first [reflexivity | discriminate X].
Qed.

Lemma portfolio_figure_follows_quotes_witness :
  create_portfolio_dashboard env0 0 (remove_from_watchlist "aapl" (db w0)) = None
  /\ exists f, create_portfolio_dashboard env0 0 (db w0) = Some f
               /\ change_colors f = ["green"%string].
Proof.
  split.
  - apply (portfolio_figure_follows_quotes env0 0 (remove_from_watchlist "aapl" (db w0))).
    intros symbol [<-|[]]. reflexivity.
  - eexists. split; [reflexivity|].
    match goal with
    | |- change_colors ?f = _ =>
        destruct (portfolio_figure_follows_quotes env0 0 (db w0)) as [_ H];
        destruct (H f eq_refl) as (_ & _ & _ & C & _)
    end.
    rewrite C. reflexivity.
Defined.

(** ** The dashboard *)

(** X21.  The "Create Alert" button creates a rule exactly when the
    threshold is above zero, and otherwise leaves the database alone.  A
    rule it creates has a positive threshold and contacts that are either
    absent or non-empty; so a [change_below] rule created there fires on
    every quote of its symbol whose change_percent is zero or negative. *)
Theorem create_alert_button_needs_positive_threshold :
  forall (symbol alert_type : string) (threshold : Q) (email chat : string)
         (t : datetime) (d : DB),
    let r := create_alert_button symbol alert_type threshold email chat t d in
    let a := mkAlertRow (alerts_seq d + 1)%Z (upper symbol) alert_type threshold
                        (nonempty email) (nonempty chat) true t in
    (fst r = true <-> 0 < threshold)
    /\ (fst r = false -> snd r = d)
    /\ (fst r = true ->
          get_active_alerts (snd r) = get_active_alerts d ++ [a]
          /\ truthy_str (a_email a) = match a_email a with Some _ => true | None => false end
          /\ truthy_str (a_telegram_chat_id a)
             = match a_telegram_chat_id a with Some _ => true | None => false end
          /\ (alert_type = "change_below"%string ->
                forall q, q_symbol q = upper symbol -> q_change_percent q <= 0 ->
                          fires q a = true)).
Proof.
  intros symbol alert_type threshold email chat t d r a. unfold r, create_alert_button.
  destruct (Qle_bool threshold 0) eqn:E; cbn [fst snd].
  - apply Qle_bool_iff in E. split; [split; [discriminate|intros; lra]|].
    split; [reflexivity | discriminate].
  - assert (P : 0 < threshold).
    { apply Qnot_le_lt. intros L. apply Qle_bool_iff in L. congruence. }
    split; [tauto|]. split; [discriminate|]. intros _.
    split; [|split; [|split]].
    + unfold get_active_alerts, create_alert. cbn. rewrite filter_app. reflexivity.
    + cbn. destruct email; reflexivity.
    + cbn. destruct chat; reflexivity.
    + intros T q Hs Hc. unfold fires. cbn [a_symbol a]. rewrite Hs, String.eqb_refl.
      apply (triggered_change_below a q T). cbn. lra.
Qed.

Lemma create_alert_button_needs_positive_threshold_witness :
  snd (create_alert_button "AAPL" "change_below" 0 "" "" t0 (db w0)) = db w0
  /\ fires (mkQuote "AAPL" 190 (-8) (-(404 # 100)) (PyNum 0) PyNone PyNone t1 true true false)
           (mkAlertRow 2 "AAPL" "change_below" 5 None None true t0) = true.
Proof.
  split.
  - apply (create_alert_button_needs_positive_threshold
             "AAPL" "change_below" 0 "" "" t0 (db w0)). reflexivity.
  - destruct (create_alert_button_needs_positive_threshold
                "AAPL" "change_below" 5 "" "" t0 (db w0)) as (_ & _ & H).
    destruct (H eq_refl) as (_ & _ & _ & F).
    apply (F eq_refl); [reflexivity | discriminate].
Defined.

(** X22.  The "Add Stock" button does nothing for an empty field; for any
    other text it has the effect of [add_to_watchlist] on the text as
    typed: upper-casing it before the call changes nothing. *)
Theorem add_stock_button_is_add_to_watchlist :
  forall (new_symbol : string) (now : datetime) (d : DB),
    (new_symbol = ""%string -> add_stock_button new_symbol now d = (false, d))
    /\ (new_symbol <> ""%string ->
          add_stock_button new_symbol now d = (true, add_to_watchlist new_symbol now d)
          /\ In (upper new_symbol) (get_watchlist (snd (add_stock_button new_symbol now d)))).
Proof.
  intros new_symbol now d. split.
  - intros ->. reflexivity.
  - intros N. destruct new_symbol as [|c s] eqn:E; [congruence|]. rewrite <- E.
    assert (A : add_to_watchlist (upper new_symbol) now d = add_to_watchlist new_symbol now d).
    { unfold add_to_watchlist. rewrite upper_idem. reflexivity. }
    assert (B : add_stock_button new_symbol now d
                = (true, add_to_watchlist new_symbol now d)).
    { rewrite E. unfold add_stock_button. rewrite <- E, A. reflexivity. }
    split; [exact B|]. rewrite B. cbn [snd]. apply added_symbol_listed.
Qed.

Lemma add_stock_button_is_add_to_watchlist_witness :
  add_stock_button "" t0 (db w0) = (false, db w0)
  /\ add_stock_button "msft" t1 (db w0) = (true, add_to_watchlist "msft" t1 (db w0)).
Proof.
  split.
  - apply (add_stock_button_is_add_to_watchlist "" t0 (db w0)). reflexivity.
  - apply (add_stock_button_is_add_to_watchlist "msft" t1 (db w0)). discriminate.
Defined.
